(** * Learning progress and gamification engine of the GO learning platform

    A shallow embedding of the progress and achievement endpoints of
    [backend/server.py], over the document model of [backend/models.py]
    and the indexes of [backend/database.py].

    The MongoDB database is a record of collections, each a list of
    documents in natural (insertion) order.  A handler is a computation
    in a state-and-exception monad over the database and a journal of the
    point credits it issues.  A raised exception leaves the writes made so
    far in place: the handlers run without a transaction.

    After the progress and achievement handlers come the handlers around
    them: the default achievements of [backend/database.py], the quiz,
    lesson and class endpoints and the authentication dependency of
    [backend/server.py]. *)

From stdpp Require Import base decidable option list gmap strings pretty sorting.
From Stdlib Require Import ZArith QArith.

Local Open Scope string_scope.
Local Open Scope list_scope.
Local Open Scope Z_scope.

(** ** Documents ([backend/models.py]) *)

Inductive UserRole := STUDENT | TEACHER | ADMIN.

Inductive QuestionType :=
  MULTIPLE_CHOICE | TRUE_FALSE | CODE_COMPLETION | FREE_TEXT.

Inductive DifficultyLevel := BEGINNER | INTERMEDIATE | ADVANCED.

(** A datetime in the store is a BSON date: milliseconds since the epoch.
    Integers are unbounded, as in Python. *)
Definition datetime := Z.

Record User := mkUser {
  u_id : string;
  u_email : string;
  u_role : UserRole;
  u_is_active : bool;
  u_points : Z;
  u_level : Z;
  u_streak_days : Z
}.

Record Lesson := mkLesson {
  l_id : string;
  l_title : string;
  l_difficulty : DifficultyLevel;
  l_is_published : bool;
  l_order_index : Z;
  l_points_reward : Z
}.

Record QuizQuestion := mkQuizQuestion {
  q_question : string;
  q_question_type : QuestionType;
  q_options : option (list string);
  q_correct_answer : string;
  q_explanation : option string;
  q_points : Z
}.

Record Quiz := mkQuiz {
  qz_id : string;
  qz_title : string;
  qz_lesson_id : string;
  qz_questions : list QuizQuestion;
  qz_time_limit : option Z;
  qz_passing_score : Z;
  qz_is_active : bool;
  qz_max_points : Z
}.

(** A progress document written by the upsert of [complete_lesson] carries
    only the filter and [$set] fields; the others are absent ([None]). *)
Record LessonProgress := mkLessonProgress {
  lp_user_id : string;
  lp_lesson_id : string;
  lp_started_at : option datetime;
  lp_completed_at : option datetime;
  lp_is_completed : bool;
  lp_time_spent : option Z;
  lp_notes : option string
}.

(** [score] and [max_score] are floats that hold integral values in every
    write the handlers perform ([0.0] and the integer [max_points]). *)
Record QuizAttempt := mkQuizAttempt {
  qa_id : string;
  qa_user_id : string;
  qa_quiz_id : string;
  qa_answers : gmap string string;
  qa_score : Z;
  qa_max_score : Z;
  qa_started_at : datetime;
  qa_completed_at : option datetime;
  qa_is_completed : bool;
  qa_time_taken : Z
}.

(** The criteria descriptor maps a metric name to its threshold; every
    descriptor the repository writes holds integer thresholds. *)
Record Achievement := mkAchievement {
  a_id : string;
  a_title : string;
  a_points_reward : Z;
  a_criteria : gmap string Z;
  a_is_active : bool
}.

Record UserAchievement := mkUserAchievement {
  ua_user_id : string;
  ua_achievement_id : string;
  ua_earned_at : datetime;
  ua_progress : Z
}.

Record APIResponse := mkAPIResponse {
  success : bool;
  message : string
}.

#[global] Instance UserRole_eq_dec : EqDecision UserRole.
Proof. solve_decision. Defined.
#[global] Instance QuestionType_eq_dec : EqDecision QuestionType.
Proof. solve_decision. Defined.
#[global] Instance DifficultyLevel_eq_dec : EqDecision DifficultyLevel.
Proof. solve_decision. Defined.
#[global] Instance User_eq_dec : EqDecision User.
Proof. solve_decision. Defined.
#[global] Instance LessonProgress_eq_dec : EqDecision LessonProgress.
Proof. solve_decision. Defined.
#[global] Instance QuizQuestion_eq_dec : EqDecision QuizQuestion.
Proof. solve_decision. Defined.

(** ** The database *)

Record DB := mkDB {
  users : list User;
  lessons : list Lesson;
  quizzes : list Quiz;
  lesson_progress : list LessonProgress;
  quiz_attempts : list QuizAttempt;
  achievements : list Achievement;
  user_achievements : list UserAchievement
}.

Definition set_users (f : list User → list User) (d : DB) : DB :=
  mkDB (f (users d)) (lessons d) (quizzes d) (lesson_progress d)
       (quiz_attempts d) (achievements d) (user_achievements d).

Definition set_lesson_progress
    (f : list LessonProgress → list LessonProgress) (d : DB) : DB :=
  mkDB (users d) (lessons d) (quizzes d) (f (lesson_progress d))
       (quiz_attempts d) (achievements d) (user_achievements d).

Definition set_quiz_attempts
    (f : list QuizAttempt → list QuizAttempt) (d : DB) : DB :=
  mkDB (users d) (lessons d) (quizzes d) (lesson_progress d)
       (f (quiz_attempts d)) (achievements d) (user_achievements d).

Definition set_user_achievements
    (f : list UserAchievement → list UserAchievement) (d : DB) : DB :=
  mkDB (users d) (lessons d) (quizzes d) (lesson_progress d)
       (quiz_attempts d) (achievements d) (f (user_achievements d)).

(** ** Reward journal

    Every point credit a handler issues to the users collection is also
    appended to the journal, tagged with the statement of [server.py]
    that issued it. *)

Inductive Credit :=
  | LessonPoints (user_id lesson_id : string) (points : Z)
      (* users.update_one in complete_lesson *)
  | AchievementPoints (user_id achievement_id : string) (points : Z).
      (* users.update_one in check_achievements *)

#[global] Instance Credit_eq_dec : EqDecision Credit.
Proof. solve_decision. Defined.

Record World := mkWorld {
  db : DB;
  journal : list Credit
}.

(** ** Handler monad: state and exceptions *)

Inductive exn :=
  | HTTPException (status_code : Z) (detail : string)
  | DuplicateKeyError.

Inductive outcome (A : Type) :=
  | Ok (a : A)
  | Raise (e : exn).
Arguments Ok {A} a.
Arguments Raise {A} e.

Definition M (A : Type) : Type := World → outcome A * World.

Definition ret {A} (a : A) : M A := λ w, (Ok a, w).

Definition bind {A B} (c : M A) (k : A → M B) : M B :=
  λ w, match c w with
       | (Ok a, w') => k a w'
       | (Raise e, w') => (Raise e, w')
       end.

Definition raise {A} (e : exn) : M A := λ w, (Raise e, w).

Definition read {A} (f : DB → A) : M A := λ w, (Ok (f (db w)), w).

Definition write (f : DB → DB) : M unit :=
  λ w, (Ok tt, mkWorld (f (db w)) (journal w)).

Definition record (e : Credit) : M unit :=
  λ w, (Ok tt, mkWorld (db w) (journal w ++ [e])).

Notation "x <- c1 ;; c2" := (bind c1 (λ x, c2))
  (at level 100, c1 at next level, right associativity).
Notation "c1 ;; c2" := (bind c1 (λ _, c2))
  (at level 100, right associativity).

(** ** Collection operations (the Motor calls the handlers use) *)

Section Collection.
Context {A : Type} (P : A → Prop) `{!∀ x, Decision (P x)}.

(** [find_one(filter)]: the first matching document, if any. *)
Definition find_one (c : list A) : option A := head (filter P c).

(** [count_documents(filter)]. *)
Definition count_documents (c : list A) : Z :=
  Z.of_nat (length (filter P c)).

(** [find(filter).to_list(n)]: at most [n] matching documents. *)
Definition find_to_list (n : nat) (c : list A) : list A :=
  take n (filter P c).

(** [update_one(filter, update)] without upsert: the update is applied to
    the first matching document; nothing happens when none matches. *)
Fixpoint update_one (f : A → A) (c : list A) : list A :=
  match c with
  | [] => []
  | x :: c' => if decide (P x) then f x :: c' else x :: update_one f c'
  end.
End Collection.

(** The result of an [update_one]; the generated [_id] of an upserted
    document is stood for by its position in the collection. *)
Record UpdateResult := mkUpdateResult {
  matched_count : Z;
  modified_count : Z;
  upserted_id : option nat
}.

(** [{"$inc": {"points": n}}] *)
Definition inc_points (n : Z) (u : User) : User :=
  mkUser (u_id u) (u_email u) (u_role u) (u_is_active u)
         (u_points u + n) (u_level u) (u_streak_days u).

(** [{"$set": {"is_completed": True, "completed_at": now}}] *)
Definition set_completed (now : datetime) (p : LessonProgress)
    : LessonProgress :=
  mkLessonProgress (lp_user_id p) (lp_lesson_id p) (lp_started_at p)
                   (Some now) true (lp_time_spent p) (lp_notes p).

Definition progress_key (user_id lesson_id : string) (p : LessonProgress)
    : Prop :=
  lp_user_id p = user_id ∧ lp_lesson_id p = lesson_id.

Definition achievement_key (user_id achievement_id : string)
    (ua : UserAchievement) : Prop :=
  ua_user_id ua = user_id ∧ ua_achievement_id ua = achievement_id.

#[global] Instance progress_key_dec u l p : Decision (progress_key u l p).
Proof. unfold progress_key; apply _. Defined.
#[global] Instance achievement_key_dec u a x : Decision (achievement_key u a x).
Proof. unfold achievement_key; apply _. Defined.

(** [lesson_progress.update_one(key, $set, upsert=True)].  MongoDB counts
    a matched document as modified only when the update changed it; when
    no document matches, the upsert inserts the filter and [$set] fields
    as a new document. *)
Definition update_one_progress (user_id lesson_id : string) (now : datetime)
    : M UpdateResult :=
  c <- read lesson_progress ;;
  match find_one (progress_key user_id lesson_id) c with
  | Some p =>
      write (set_lesson_progress
               (update_one (progress_key user_id lesson_id)
                           (set_completed now))) ;;
      ret (mkUpdateResult 1
             (if decide (set_completed now p = p) then 0 else 1) None)
  | None =>
      write (set_lesson_progress (λ c,
               c ++ [mkLessonProgress user_id lesson_id None (Some now)
                                      true None None])) ;;
      ret (mkUpdateResult 0 0 (Some (length c)))
  end.

(** [lesson_progress.insert_one] under the unique index on
    [(user_id, lesson_id)] ([create_indexes]). *)
Definition insert_one_progress (p : LessonProgress) : M unit :=
  c <- read lesson_progress ;;
  if decide (Exists (progress_key (lp_user_id p) (lp_lesson_id p)) c)
  then raise DuplicateKeyError
  else write (set_lesson_progress (λ c, c ++ [p])).

(** [user_achievements.insert_one] under the unique index on
    [(user_id, achievement_id)] ([create_indexes]). *)
Definition insert_one_user_achievement (ua : UserAchievement) : M unit :=
  c <- read user_achievements ;;
  if decide (Exists (achievement_key (ua_user_id ua)
                                     (ua_achievement_id ua)) c)
  then raise DuplicateKeyError
  else write (set_user_achievements (λ c, c ++ [ua])).

(** [users.update_one({"id": user_id}, {"$inc": {"points": n}})] *)
Definition update_one_points (user_id : string) (n : Z) : M unit :=
  write (set_users (update_one (λ u, u_id u = user_id) (inc_points n))).

Fixpoint for_each {A} (body : A → M unit) (l : list A) : M unit :=
  match l with
  | [] => ret tt
  | x :: l' => body x ;; for_each body l'
  end.

(** ** Quiz attempts ([start_quiz_attempt]) *)

(** The assignment that blanks [question.correct_answer]. *)
Definition hide_correct_answer (q : QuizQuestion) : QuizQuestion :=
  mkQuizQuestion (q_question q) (q_question_type q) (q_options q) EmptyString
                 (q_explanation q) (q_points q).

(** The [Quiz] model is built from the fetched document with question
    objects of its own, and the loop blanks the answer of each of them. *)
Definition quiz_for_student (quiz : Quiz) : Quiz :=
  mkQuiz (qz_id quiz) (qz_title quiz) (qz_lesson_id quiz)
         (hide_correct_answer <$> qz_questions quiz)
         (qz_time_limit quiz) (qz_passing_score quiz) (qz_is_active quiz)
         (qz_max_points quiz).

(** [uuid] and [now] are what [uuid.uuid4()] and [datetime.utcnow()] return
    while the attempt is built.  The redacted copy is a local that the
    handler drops: the response is the attempt. *)
Definition start_quiz_attempt (quiz_id : string) (current_user : User)
    (uuid : string) (now : datetime) : M QuizAttempt :=
  quiz <- read (λ d, find_one (λ q, qz_id q = quiz_id) (quizzes d)) ;;
  match quiz with
  | None => raise (HTTPException 404 "Quiz not found")
  | Some quiz =>
      let attempt :=
        mkQuizAttempt uuid (u_id current_user) quiz_id ∅ 0
                      (qz_max_points quiz) now None false 0 in
      write (set_quiz_attempts (λ c, c ++ [attempt])) ;;
      let quiz_for_student := quiz_for_student quiz in
      ret attempt
  end.

(** ** Lesson progress ([start_lesson], [complete_lesson]) *)

Definition start_lesson (lesson_id : string) (current_user : User)
    (now : datetime) : M APIResponse :=
  lesson <- read (λ d, find_one (λ l, l_id l = lesson_id) (lessons d)) ;;
  match lesson with
  | None => raise (HTTPException 404 "Lesson not found")
  | Some lesson =>
      existing_progress <-
        read (λ d, find_one (progress_key (u_id current_user) lesson_id)
                            (lesson_progress d)) ;;
      match existing_progress with
      | Some _ => ret (mkAPIResponse true "Lesson already started")
      | None =>
          insert_one_progress
            (mkLessonProgress (u_id current_user) lesson_id (Some now)
                              None false (Some 0) None) ;;
          ret (mkAPIResponse true "Lesson started")
      end
  end.

(** ** Achievement system ([check_achievements]) *)

(** The test of the loop body:
    ["lessons_completed" in criteria and
     lessons_completed >= criteria["lessons_completed"]]. *)
Definition earned (criteria : gmap string Z) (lessons_completed : Z) : bool :=
  match criteria !! "lessons_completed" with
  | Some threshold => bool_decide (threshold ≤ lessons_completed)
  | None => false
  end.

(** The body of the loop over the available achievements. *)
Definition award (user_id : string) (now : datetime) (lessons_completed : Z)
    (achievement : Achievement) : M unit :=
  if earned (a_criteria achievement) lessons_completed then
    insert_one_user_achievement
      (mkUserAchievement user_id (a_id achievement) now 1) ;;
    update_one_points user_id (a_points_reward achievement) ;;
    record (AchievementPoints user_id (a_id achievement)
                              (a_points_reward achievement))
  else ret tt.

Definition completed_by (user_id : string) (p : LessonProgress) : Prop :=
  lp_user_id p = user_id ∧ lp_is_completed p = true.

Definition attempt_completed_by (user_id : string) (a : QuizAttempt) : Prop :=
  qa_user_id a = user_id ∧ qa_is_completed a = true.

(** [{"is_active": True, "id": {"$nin": earned_achievement_ids}}] *)
Definition available (earned_achievement_ids : list string)
    (a : Achievement) : Prop :=
  a_is_active a = true ∧ a_id a ∉ earned_achievement_ids.

#[global] Instance completed_by_dec u p : Decision (completed_by u p).
Proof. unfold completed_by; apply _. Defined.
#[global] Instance attempt_completed_by_dec u a :
  Decision (attempt_completed_by u a).
Proof. unfold attempt_completed_by; apply _. Defined.
#[global] Instance available_dec ids a : Decision (available ids a).
Proof. unfold available; apply _. Defined.

(** The achievements the pass iterates over. *)
Definition available_achievements (user_id : string) (d : DB)
    : list Achievement :=
  let user_achievements :=
    find_to_list (λ ua, ua_user_id ua = user_id) 100 (user_achievements d) in
  let earned_achievement_ids := ua_achievement_id <$> user_achievements in
  find_to_list (available earned_achievement_ids) 100 (achievements d).

(** [now] is the reading of [datetime.utcnow()] that stamps the records of
    this request. *)
Definition check_achievements (user_id : string) (now : datetime) : M unit :=
  lessons_completed <-
    read (λ d, count_documents (completed_by user_id) (lesson_progress d)) ;;
  quizzes_completed <-
    read (λ d, count_documents (attempt_completed_by user_id)
                               (quiz_attempts d)) ;;
  available_achievements <- read (available_achievements user_id) ;;
  for_each (award user_id now lessons_completed) available_achievements.

Definition complete_lesson (lesson_id : string) (current_user : User)
    (now : datetime) : M APIResponse :=
  lesson <- read (λ d, find_one (λ l, l_id l = lesson_id) (lessons d)) ;;
  match lesson with
  | None => raise (HTTPException 404 "Lesson not found")
  | Some lesson =>
      result <- update_one_progress (u_id current_user) lesson_id now ;;
      (if bool_decide (is_Some (upserted_id result))
          || bool_decide (0 < modified_count result)
       then
         update_one_points (u_id current_user) (l_points_reward lesson) ;;
         record (LessonPoints (u_id current_user) lesson_id
                              (l_points_reward lesson)) ;;
         check_achievements (u_id current_user) now
       else ret tt) ;;
      ret (mkAPIResponse true "Lesson completed")
  end.

(** ** Observations on a database *)

(** The point balance of a learner. *)
Definition balance (user_id : string) (d : DB) : option Z :=
  u_points <$> find_one (λ u, u_id u = user_id) (users d).

(** The stored progress record of a (learner, lesson) pair. *)
Definition progress_of (user_id lesson_id : string) (d : DB)
    : option LessonProgress :=
  find_one (progress_key user_id lesson_id) (lesson_progress d).

(** The achievements a learner holds, in the order they were granted. *)
Definition earned_ids (user_id : string) (d : DB) : list string :=
  ua_achievement_id <$> filter (λ ua, ua_user_id ua = user_id)
                               (user_achievements d).

(** The world after the loop body has granted an achievement: the record
    is inserted, then the reward is credited. *)
Definition granted (user_id : string) (now : datetime)
    (achievement : Achievement) (w : World) : World :=
  mkWorld
    (set_users
       (update_one (λ u, u_id u = user_id)
                   (inc_points (a_points_reward achievement)))
       (set_user_achievements
          (λ c, c ++ [mkUserAchievement user_id (a_id achievement) now 1])
          (db w)))
    (journal w ++ [AchievementPoints user_id (a_id achievement)
                                     (a_points_reward achievement)]).

(** The unique index on [(user_id, achievement_id)], seen from one pair:
    the number of records the pair has. *)
Definition records_of (user_id achievement_id : string) (d : DB) : nat :=
  length (filter (achievement_key user_id achievement_id)
                 (user_achievements d)).

Definition unique_index (d : DB) : Prop :=
  ∀ user_id achievement_id, (records_of user_id achievement_id d ≤ 1)%nat.

(** The credits of an achievement's reward to a learner in a journal. *)
Definition is_credit_of (user_id achievement_id : string) (c : Credit)
    : Prop :=
  match c with
  | AchievementPoints u a _ => u = user_id ∧ a = achievement_id
  | LessonPoints _ _ _ => False
  end.

#[global] Instance is_credit_of_dec u a c : Decision (is_credit_of u a c).
Proof. destruct c; simpl; apply _. Defined.

Definition credits_of (user_id achievement_id : string) (j : list Credit)
    : nat :=
  length (filter (is_credit_of user_id achievement_id) j).

(** Every configured reward is non-negative. *)
Definition rewards_nonneg (d : DB) : Prop :=
  Forall (λ l, 0 ≤ l_points_reward l) (lessons d) ∧
  Forall (λ a, 0 ≤ a_points_reward a) (achievements d).

(** The users collection holds the same learners, none with fewer points. *)
Definition points_grow (before after : list User) : Prop :=
  Forall2 (λ u u', u_id u' = u_id u ∧ u_points u ≤ u_points u') before after.

(** The achievements of a list whose test succeeds, their records, their
    credits and the sum of their rewards. *)
Definition earned_among (lc : Z) (l : list Achievement) : list Achievement :=
  filter (λ a, earned (a_criteria a) lc = true) l.

Definition total_reward (l : list Achievement) : Z :=
  foldr (λ a acc, a_points_reward a + acc) 0 l.

Definition record_of (user_id : string) (now : datetime) (a : Achievement)
    : UserAchievement :=
  mkUserAchievement user_id (a_id a) now 1.

Definition credit_of (user_id : string) (a : Achievement) : Credit :=
  AchievementPoints user_id (a_id a) (a_points_reward a).

(** The world after every achievement of a list has been granted. *)
Definition all_granted (user_id : string) (now : datetime)
    (l : list Achievement) (w : World) : World :=
  mkWorld
    (set_users
       (update_one (λ u, u_id u = user_id) (inc_points (total_reward l)))
       (set_user_achievements (λ c, c ++ (record_of user_id now <$> l))
                              (db w)))
    (journal w ++ (credit_of user_id <$> l)).

(** The world after [complete_lesson] has credited the lesson reward. *)
Definition lesson_credited (lesson : Lesson) (user_id : string) (w : World)
    : World :=
  mkWorld
    (set_users (update_one (λ u, u_id u = user_id)
                           (inc_points (l_points_reward lesson)))
               (db w))
    (journal w ++ [LessonPoints user_id (l_id lesson)
                                (l_points_reward lesson)]).

(** ** Atomic writes

    The writes the handlers make, one constructor for each kind: a change
    of the progress collection, a change of the attempts collection, the
    credit of the reward of a stored lesson, and the grant of a stored
    achievement to a learner who has no record of it. *)

Inductive step : World → World → Prop :=
  | step_progress f w :
      step w (mkWorld (set_lesson_progress f (db w)) (journal w))
  | step_attempts f w :
      step w (mkWorld (set_quiz_attempts f (db w)) (journal w))
  | step_lesson_credit user_id lesson w :
      lesson ∈ lessons (db w) →
      step w (mkWorld
                (set_users (update_one (λ u, u_id u = user_id)
                                       (inc_points (l_points_reward lesson)))
                           (db w))
                (journal w ++ [LessonPoints user_id (l_id lesson)
                                            (l_points_reward lesson)]))
  | step_grant user_id now achievement w :
      achievement ∈ achievements (db w) →
      ¬ Exists (achievement_key user_id (a_id achievement))
               (user_achievements (db w)) →
      step w (granted user_id now achievement w).

(** Each record of a pair is unique, and a reward is credited only to a
    pair that has its record. *)
Definition ledger_ok (w : World) : Prop :=
  ∀ user_id achievement_id,
    (credits_of user_id achievement_id (journal w)
     ≤ records_of user_id achievement_id (db w))%nat ∧
    (records_of user_id achievement_id (db w) ≤ 1)%nat.

(** ** Requests *)

Inductive Request :=
  | StartLesson (lesson_id : string) (current_user : User) (now : datetime)
  | CompleteLesson (lesson_id : string) (current_user : User) (now : datetime)
  | StartQuizAttempt (quiz_id : string) (current_user : User)
      (uuid : string) (now : datetime).

(** The world a request leaves behind, whether it returned or raised. *)
Definition handle (r : Request) (w : World) : World :=
  match r with
  | StartLesson lesson_id current_user now =>
      (start_lesson lesson_id current_user now w).2
  | CompleteLesson lesson_id current_user now =>
      (complete_lesson lesson_id current_user now w).2
  | StartQuizAttempt quiz_id current_user uuid now =>
      (start_quiz_attempt quiz_id current_user uuid now w).2
  end.

Definition serve (rs : list Request) (w : World) : World :=
  foldl (λ w r, handle r w) w rs.

Definition run {A} (c : M A) (d : DB) : outcome A * World :=
  c (mkWorld d []).

(** ** The criteria evaluator as the specification words it

    A criterion is satisfied when the statistic of its metric reaches the
    threshold, an unknown metric is unsatisfied, and an achievement is
    earned when all its criteria are satisfied. *)

Definition criterion_satisfied (stats : gmap string Z) (metric : string)
    (threshold : Z) : Prop :=
  match stats !! metric with
  | Some value => threshold ≤ value
  | None => False
  end.

#[global] Instance criterion_satisfied_dec stats metric threshold :
  Decision (criterion_satisfied stats metric threshold).
Proof. unfold criterion_satisfied; destruct (stats !! metric); apply _. Defined.

Definition spec_evaluate (criteria stats : gmap string Z) : bool :=
  bool_decide (map_Forall (criterion_satisfied stats) criteria).

(** The aggregate statistics [check_achievements] computes. *)
Definition aggregate_statistics (lessons_completed quizzes_completed : Z)
    : gmap string Z :=
  {[ "lessons_completed" := lessons_completed;
     "quizzes_completed" := quizzes_completed ]}.

(** ** Quiz scorer *)

Inductive Condition := DegenerateContent.

Record ScoreResult := mkScoreResult {
  score : Z;
  maxScore : Z;
  passed : bool;
  condition : option Condition
}.

Fixpoint ltrim (s : string) : string :=
  match s with
  | String c s' => if Ascii.is_space c then ltrim s' else s
  | EmptyString => EmptyString
  end.

Definition trim (s : string) : string :=
  String.rev (ltrim (String.rev (ltrim s))).

Section Scorer.
(** The identifier under which the answer to the question at a position is
    submitted; the specification leaves its form open. *)
Variable question_id : nat → QuizQuestion → string.

(** Modelled from the spec: the type-aware comparison of the Quiz Scorer
    (specification, section 4.2).  The sources declare the question types
    and the point values but hold no function that compares an answer.
    Multiple-choice and true/false answers are compared as they are,
    free-text and code-completion answers after trimming. *)
Definition answer_matches (q : QuizQuestion) (submitted : option string)
    : bool :=
  match submitted with
  | None => false
  | Some answer =>
      match q_question_type q with
      | MULTIPLE_CHOICE | TRUE_FALSE =>
          bool_decide (answer = q_correct_answer q)
      | FREE_TEXT | CODE_COMPLETION =>
          bool_decide (trim answer = trim (q_correct_answer q))
      end
  end.

(** Modelled from the spec: one pass over the ordered questions that
    accumulates the points won and the points available. *)
Fixpoint tally (position : nat) (questions : list QuizQuestion)
    (answers : gmap string string) (won available : Z) : Z * Z :=
  match questions with
  | [] => (won, available)
  | q :: rest =>
      let won' :=
        if answer_matches q (answers !! question_id position q)
        then won + q_points q else won in
      tally (S position) rest answers won' (available + q_points q)
  end.

(** Modelled from the spec: the Quiz Scorer (specification, section 4.2),
    which no function of the sources implements: [score] is the sum of the
    points of the matched questions, [maxScore] the sum of all points,
    [passed] is [(score / maxScore * 100) >= passing_score] over the
    rationals, and a quiz without points is reported as degenerate and not
    passed. *)
Definition score_quiz (questions : list QuizQuestion) (passing_score : Z)
    (answers : gmap string string) : ScoreResult :=
  let '(won, available) := tally 0 questions answers 0 0 in
  if decide (available = 0)
  then mkScoreResult won available false (Some DegenerateContent)
  else mkScoreResult won available
         (Qle_bool (inject_Z passing_score)
                   (inject_Z won / inject_Z available * 100))
         None.

(** The questions of a list, from a position on, that a submission
    matches. *)
Fixpoint matched (position : nat) (questions : list QuizQuestion)
    (answers : gmap string string) : list QuizQuestion :=
  match questions with
  | [] => []
  | q :: rest =>
      if answer_matches q (answers !! question_id position q)
      then q :: matched (S position) rest answers
      else matched (S position) rest answers
  end.
End Scorer.

(** [sum(q.points for q in questions)] *)
Definition total_points (questions : list QuizQuestion) : Z :=
  foldr (λ q acc, q_points q + acc) 0 questions.

(** ** Example catalogues *)

Definition alice : User :=
  mkUser "u1" "alice@example.org" STUDENT true 0 1 0.

Definition lesson_n (id : string) (reward : Z) : Lesson :=
  mkLesson id "Lesson" BEGINNER true 0 reward.

Definition achievement_n (id : string) (reward : Z)
    (criteria : gmap string Z) : Achievement :=
  mkAchievement id "Achievement" reward criteria true.

(** One learner, two lessons and the default first-lesson achievement. *)
Definition db_first : DB :=
  mkDB [alice] [lesson_n "L1" 10; lesson_n "L2" 10] [] [] []
       [achievement_n "first_lesson" 50 {[ "lessons_completed" := 1 ]}] [].

(** Five lessons and an achievement for completing all five. *)
Definition db_five : DB :=
  mkDB [alice]
       [lesson_n "L1" 10; lesson_n "L2" 10; lesson_n "L3" 10;
        lesson_n "L4" 10; lesson_n "L5" 10]
       [] [] []
       [achievement_n "five_lessons" 150 {[ "lessons_completed" := 5 ]}] [].

(** A descriptor that combines two metrics the pass has statistics for. *)
Definition lessons_and_quizzes : gmap string Z :=
  {[ "lessons_completed" := 1; "quizzes_completed" := 5 ]}.

(** A descriptor that names a metric the pass knows nothing about. *)
Definition lessons_and_streak : gmap string Z :=
  {[ "lessons_completed" := 1; "streak_days" := 7 ]}.

Definition db_streak : DB :=
  mkDB [alice] [lesson_n "L1" 10] [] [] []
       [achievement_n "steady" 200 lessons_and_streak] [].

(** The default week-streak achievement of [init_default_achievements]. *)
Definition week_streak : Achievement :=
  achievement_n "week_streak" 200 {[ "streak_days" := 7 ]}.

Definition quiz_go : Quiz :=
  mkQuiz "Q1" "Go basics" "L1"
         [mkQuizQuestion "Keyword for a function?" FREE_TEXT None "func"
                         None 10;
          mkQuizQuestion "Go is compiled" TRUE_FALSE None "true" None 5]
         None 70 true 15.

Definition db_quiz : DB :=
  mkDB [alice] [lesson_n "L1" 10] [quiz_go] [] [] [] [].

(** A learner who holds 101 achievements, numbered 0 to 100, in a
    catalogue where achievement 100 and a further one are active.  Every
    identifier is unique and both unique indexes hold. *)
Definition db_many : DB :=
  mkDB [alice] [lesson_n "L1" 10] [] [] []
       [achievement_n "100" 50 {[ "lessons_completed" := 1 ]};
        achievement_n "starter" 20 {[ "lessons_completed" := 1 ]}]
       ((λ i, mkUserAchievement "u1" (pretty i) 0 1) <$> seq 0 101).

(** ** The writes of the progress handlers, one by one

    The same writes as [step], with what each handler has checked before
    it makes them: a progress record is appended only for a pair that has
    none, an attempt is appended uncompleted, and an achievement is granted
    only when it is stored, active and its test succeeds on the learner's
    current count of completed lessons. *)

Definition started_record (user_id lesson_id : string) (now : datetime)
    : LessonProgress :=
  mkLessonProgress user_id lesson_id (Some now) None false (Some 0) None.

Definition upserted_record (user_id lesson_id : string) (now : datetime)
    : LessonProgress :=
  mkLessonProgress user_id lesson_id None (Some now) true None None.

Definition new_attempt (uuid user_id quiz_id : string) (max_points : Z)
    (now : datetime) : QuizAttempt :=
  mkQuizAttempt uuid user_id quiz_id ∅ 0 max_points now None false 0.

Definition lessons_completed_by (user_id : string) (d : DB) : Z :=
  count_documents (completed_by user_id) (lesson_progress d).

Inductive atomic : World → World → Prop :=
  | atomic_start user_id lesson_id now w :
      ¬ Exists (progress_key user_id lesson_id) (lesson_progress (db w)) →
      atomic w (mkWorld
                  (set_lesson_progress
                     (λ c, c ++ [started_record user_id lesson_id now])
                     (db w))
                  (journal w))
  | atomic_upsert user_id lesson_id now w :
      ¬ Exists (progress_key user_id lesson_id) (lesson_progress (db w)) →
      atomic w (mkWorld
                  (set_lesson_progress
                     (λ c, c ++ [upserted_record user_id lesson_id now])
                     (db w))
                  (journal w))
  | atomic_set_completed user_id lesson_id now w :
      atomic w (mkWorld
                  (set_lesson_progress
                     (update_one (progress_key user_id lesson_id)
                                 (set_completed now))
                     (db w))
                  (journal w))
  | atomic_attempt uuid user_id quiz now w :
      quiz ∈ quizzes (db w) →
      atomic w (mkWorld
                  (set_quiz_attempts
                     (λ c, c ++ [new_attempt uuid user_id (qz_id quiz)
                                             (qz_max_points quiz) now])
                     (db w))
                  (journal w))
  | atomic_lesson_credit user_id lesson w :
      lesson ∈ lessons (db w) →
      atomic w (lesson_credited lesson user_id w)
  | atomic_grant user_id now achievement w :
      achievement ∈ achievements (db w) →
      a_is_active achievement = true →
      earned (a_criteria achievement)
             (lessons_completed_by user_id (db w)) = true →
      ¬ Exists (achievement_key user_id (a_id achievement))
               (user_achievements (db w)) →
      atomic w (granted user_id now achievement w).


(** ** Further observations *)

(** The unique index on [(user_id, lesson_id)] of [create_indexes]. *)
Definition progress_unique (d : DB) : Prop :=
  ∀ user_id lesson_id,
    (length (filter (progress_key user_id lesson_id) (lesson_progress d))
     ≤ 1)%nat.

(** The progress record of the pair says the lesson is completed. *)
Definition is_completed (user_id lesson_id : string) (d : DB) : Prop :=
  ∃ p, progress_of user_id lesson_id d = Some p ∧ lp_is_completed p = true.

(** The points a journal credits to a learner. *)
Definition credit_amount (user_id : string) (c : Credit) : Z :=
  match c with
  | LessonPoints u _ n | AchievementPoints u _ n =>
      if decide (u = user_id) then n else 0
  end.

Definition credited (user_id : string) (j : list Credit) : Z :=
  foldr (λ c acc, credit_amount user_id c + acc) 0 j.

(** A record of a held achievement is justified in a database when the
    achievement is stored and active and lists [lessons_completed] with a
    threshold that the holder's completed lessons reach. *)
Definition justified (d : DB) (ua : UserAchievement) : Prop :=
  ∃ a threshold,
    a ∈ achievements d ∧ a_id a = ua_achievement_id ua ∧
    a_is_active a = true ∧
    a_criteria a !! "lessons_completed" = Some threshold ∧
    threshold ≤ lessons_completed_by (ua_user_id ua) d.

(** The achievements a learner holds, as [check_achievements] reads them. *)
Definition held_by (user_id : string) (d : DB) : list UserAchievement :=
  filter (λ ua, ua_user_id ua = user_id) (user_achievements d).


(** ** Catalogue handlers ([init_default_achievements], [create_quiz],
       [get_lesson_quizzes], [create_lesson], [get_lessons])

    The document records keep the fields that the progress handlers and
    these handlers read or set; descriptions, icons, creators and creation
    times are left out of them. *)

Definition set_achievements
    (f : list Achievement → list Achievement) (d : DB) : DB :=
  mkDB (users d) (lessons d) (quizzes d) (lesson_progress d)
       (quiz_attempts d) (f (achievements d)) (user_achievements d).

Definition set_quizzes (f : list Quiz → list Quiz) (d : DB) : DB :=
  mkDB (users d) (lessons d) (f (quizzes d)) (lesson_progress d)
       (quiz_attempts d) (achievements d) (user_achievements d).

Definition set_lessons (f : list Lesson → list Lesson) (d : DB) : DB :=
  mkDB (users d) (f (lessons d)) (quizzes d) (lesson_progress d)
       (quiz_attempts d) (achievements d) (user_achievements d).

(** The table of [init_default_achievements] ([backend/database.py]). *)
Definition default_achievements : list Achievement :=
  [mkAchievement "first_lesson" "First Steps" 50
                 {[ "lessons_completed" := 1 ]} true;
   mkAchievement "quiz_master" "Quiz Master" 100
                 {[ "perfect_quiz_score" := 1 ]} true;
   mkAchievement "week_streak" "Weekly Warrior" 200
                 {[ "streak_days" := 7 ]} true;
   mkAchievement "go_beginner" "GO Beginner" 150
                 {[ "beginner_lessons" := 5 ]} true;
   mkAchievement "code_explorer" "Code Explorer" 300
                 {[ "difficulty_variety" := 3 ]} true].

(** The body of the loop of [init_default_achievements]: the achievement
    is inserted unless a stored one has its id. *)
Definition ensure_achievement (achievement : Achievement) : M unit :=
  existing <-
    read (λ d, find_one (λ a, a_id a = a_id achievement) (achievements d)) ;;
  match existing with
  | Some _ => ret tt
  | None => write (set_achievements (λ c, c ++ [achievement]))
  end.

Definition init_default_achievements : M unit :=
  for_each ensure_achievement default_achievements.

(** [current_user.role not in [UserRole.TEACHER, UserRole.ADMIN]] *)
Definition is_staff (u : User) : bool :=
  match u_role u with
  | TEACHER | ADMIN => true
  | STUDENT => false
  end.

Record QuizCreate := mkQuizCreate {
  qc_title : string;
  qc_lesson_id : string;
  qc_questions : list QuizQuestion;
  qc_time_limit : option Z;
  qc_passing_score : Z
}.

(** [uuid] is what the [id] default of the [Quiz] model generates. *)
Definition create_quiz (quiz_data : QuizCreate) (current_user : User)
    (uuid : string) : M Quiz :=
  if negb (is_staff current_user) then
    raise (HTTPException 403 "Only teachers and admins can create quizzes")
  else
    let max_points := total_points (qc_questions quiz_data) in
    let new_quiz :=
      mkQuiz uuid (qc_title quiz_data) (qc_lesson_id quiz_data)
             (qc_questions quiz_data) (qc_time_limit quiz_data)
             (qc_passing_score quiz_data) true max_points in
    write (set_quizzes (λ c, c ++ [new_quiz])) ;;
    ret new_quiz.

Definition active_quiz_of (lesson_id : string) (q : Quiz) : Prop :=
  qz_lesson_id q = lesson_id ∧ qz_is_active q = true.

#[global] Instance active_quiz_of_dec l q : Decision (active_quiz_of l q).
Proof. unfold active_quiz_of; apply _. Defined.

(** The handler reads the collection and returns the documents found as
    [Quiz] models, whoever the authenticated user is. *)
Definition get_lesson_quizzes (lesson_id : string) (current_user : User)
    : M (list Quiz) :=
  read (λ d, find_to_list (active_quiz_of lesson_id) 100 (quizzes d)).

Record LessonCreate := mkLessonCreate {
  lc_title : string;
  lc_difficulty : DifficultyLevel
}.

(** The [Lesson] model fills in [is_published = False], [order_index = 0]
    and [points_reward = 10]. *)
Definition create_lesson (lesson_data : LessonCreate) (current_user : User)
    (uuid : string) : M Lesson :=
  if negb (is_staff current_user) then
    raise (HTTPException 403 "Only teachers and admins can create lessons")
  else
    let new_lesson :=
      mkLesson uuid (lc_title lesson_data) (lc_difficulty lesson_data)
               false 0 10 in
    write (set_lessons (λ c, c ++ [new_lesson])) ;;
    ret new_lesson.

(** [{"is_published": True}], with the difficulty when one is asked for. *)
Definition listed (difficulty : option DifficultyLevel) (l : Lesson) : Prop :=
  l_is_published l = true ∧
  match difficulty with
  | Some level => l_difficulty l = level
  | None => True
  end.

#[global] Instance listed_dec difficulty l : Decision (listed difficulty l).
Proof. unfold listed; destruct difficulty; apply _. Defined.

Definition by_order_index (l1 l2 : Lesson) : Prop :=
  l_order_index l1 ≤ l_order_index l2.

#[global] Instance by_order_index_dec l1 l2 :
  Decision (by_order_index l1 l2).
Proof. unfold by_order_index; apply _. Defined.

(** [find(filter_query).sort("order_index", 1).to_list(100)]; the order
    among lessons of equal [order_index] is that of the merge sort. *)
Definition get_lessons (difficulty : option DifficultyLevel)
    (current_user : User) : M (list Lesson) :=
  read (λ d, take 100 (merge_sort by_order_index
                                  (filter (listed difficulty) (lessons d)))).

(** [get_user_achievements]: the caller reads their own achievements, or
    anybody's when teacher or admin. *)
Definition get_user_achievements (user_id : string) (current_user : User)
    : M (list UserAchievement) :=
  if bool_decide (u_id current_user ≠ user_id) && negb (is_staff current_user)
  then raise (HTTPException 403 "Insufficient permissions")
  else read (λ d, find_to_list (λ ua, ua_user_id ua = user_id) 100
                               (user_achievements d)).

(** ** Authentication ([get_current_user_with_db])

    The JWT library is outside the repository: [decode_token] is what
    [AuthHandler.decode_token] yields for a token, a payload or the 401 it
    raises. *)

Section Authentication.
Variable decode_token : string → outcome (gmap string string).

Definition get_current_user_with_db (token : string) : M User :=
  match decode_token token with
  | Raise e => raise e
  | Ok payload =>
      match payload !! "sub" with
      | None =>
          raise (HTTPException 401 "Invalid authentication credentials")
      | Some user_id =>
          user <- read (λ d, find_one (λ u, u_id u = user_id) (users d)) ;;
          match user with
          | None => raise (HTTPException 401 "User not found")
          | Some user =>
              if negb (u_is_active user)
              then raise (HTTPException 400 "Inactive user")
              else ret user
          end
      end
  end.
End Authentication.

(** ** Classes ([create_class], [get_classes], [join_class])

    These handlers touch the classes collection only; they are
    computations over that collection. *)

Record Class := mkClass {
  c_id : string;
  c_name : string;
  c_description : option string;
  c_grade_level : option string;
  c_teacher_id : string;
  c_students : list string;
  c_created_at : datetime;
  c_is_active : bool;
  c_class_code : string
}.

Record ClassCreate := mkClassCreate {
  cc_name : string;
  cc_description : option string;
  cc_grade_level : option string
}.

Definition C (A : Type) : Type := list Class → outcome A * list Class.

(** [classes.insert_one] under the unique index on [class_code]. *)
Definition insert_one_class (c : Class) : C unit :=
  λ classes,
    if decide (Exists (λ x, c_class_code x = c_class_code c) classes)
    then (Raise DuplicateKeyError, classes)
    else (Ok tt, classes ++ [c]).

(** [uuid] and [class_code] are what the defaults of the [Class] model
    generate, [now] is the clock reading of [created_at]. *)
Definition create_class (class_data : ClassCreate) (current_user : User)
    (uuid class_code : string) (now : datetime) : C Class :=
  λ classes,
    if negb (is_staff current_user) then
      (Raise (HTTPException 403 "Only teachers and admins can create classes"),
       classes)
    else
      let new_class :=
        mkClass uuid (cc_name class_data) (cc_description class_data)
                (cc_grade_level class_data) (u_id current_user) [] now true
                class_code in
      match insert_one_class new_class classes with
      | (Ok _, classes') => (Ok new_class, classes')
      | (Raise e, classes') => (Raise e, classes')
      end.

Definition visible_to (current_user : User) (c : Class) : Prop :=
  match u_role current_user with
  | TEACHER => c_teacher_id c = u_id current_user
  | ADMIN => True
  | STUDENT => u_id current_user ∈ c_students c
  end.

#[global] Instance visible_to_dec u c : Decision (visible_to u c).
Proof. unfold visible_to; destruct (u_role u); apply _. Defined.


(** [{"$push": {"students": user_id}}] *)
Definition push_student (user_id : string) (c : Class) : Class :=
  mkClass (c_id c) (c_name c) (c_description c) (c_grade_level c)
          (c_teacher_id c) (c_students c ++ [user_id]) (c_created_at c)
          (c_is_active c) (c_class_code c).

Definition join_class (class_id class_code : string) (current_user : User)
    : C APIResponse :=
  λ classes,
    if negb (bool_decide (u_role current_user = STUDENT)) then
      (Raise (HTTPException 403 "Only students can join classes"), classes)
    else
      match find_one (λ c, c_id c = class_id ∧ c_class_code c = class_code)
                     classes with
      | None => (Raise (HTTPException 404 "Invalid class code"), classes)
      | Some class_doc =>
          if bool_decide (u_id current_user ∈ c_students class_doc) then
            (Raise (HTTPException 400 "Already enrolled in this class"),
             classes)
          else
            (Ok (mkAPIResponse true "Successfully joined class"),
             update_one (λ c, c_id c = class_id)
                        (push_student (u_id current_user)) classes)
      end.


(** A class of teacher t1 without students. *)
Definition class_1 : Class :=
  mkClass "c1" "Go 101" None None "t1" [] 0 true "ABCD1234".

Definition teacher_1 : User :=
  mkUser "t1" "tea@example.org" TEACHER true 0 1 0.

(** * Properties *)

(** ** The monad and the collection operations *)

Lemma bind_ok {A B} (c : M A) (k : A → M B) w a w' :
  c w = (Ok a, w') → bind c k w = k a w'.
Proof. unfold bind; intros ->; done. Qed.

Lemma bind_raise {A B} (c : M A) (k : A → M B) w e w' :
  c w = (Raise e, w') → bind c k w = (Raise e, w').
Proof. unfold bind; intros ->; done. Qed.

Lemma for_each_app {A} (body : A → M unit) l1 l2 w w1 :
  for_each body l1 w = (Ok tt, w1) →
  for_each body (l1 ++ l2) w = for_each body l2 w1.
Proof.
  revert w; induction l1 as [|x l1 IH]; simpl; intros w H.
  - unfold ret in H; congruence.
  - unfold bind in *. destruct (body x w) as [[[]|e] w0]; [auto|done].
Qed.

Lemma find_one_Some {A} (P : A → Prop) `{!∀ x, Decision (P x)} c x :
  find_one P c = Some x → x ∈ c ∧ P x.
Proof.
  unfold find_one; intros Hf.
  apply head_Some_elem_of, list_elem_of_filter in Hf; tauto.
Qed.

Lemma find_one_None {A} (P : A → Prop) `{!∀ x, Decision (P x)} c :
  find_one P c = None ↔ ¬ Exists P c.
Proof.
  unfold find_one; rewrite head_None, Exists_exists; split.
  - intros Hf [x [Hx HP]].
    assert (x ∈ filter P c) as Hin by (apply list_elem_of_filter; done).
    rewrite Hf in Hin; by apply not_elem_of_nil in Hin.
  - intros Hf. destruct (filter P c) as [|x l] eqn:E; [done|].
    exfalso; apply Hf; exists x.
    assert (x ∈ filter P c) as Hin by (rewrite E; left).
    apply list_elem_of_filter in Hin; tauto.
Qed.

Lemma find_to_list_elem_of {A} (P : A → Prop) `{!∀ x, Decision (P x)} n c x :
  x ∈ find_to_list P n c → x ∈ c ∧ P x.
Proof.
  unfold find_to_list; intros Hf.
  apply subseteq_take, list_elem_of_filter in Hf; tauto.
Qed.

(** ** The loop body of the achievement pass *)

Lemma award_skip user_id now lc a w :
  earned (a_criteria a) lc = false → award user_id now lc a w = (Ok tt, w).
Proof. unfold award; intros ->; done. Qed.

Lemma award_conflict user_id now lc a w :
  earned (a_criteria a) lc = true →
  Exists (achievement_key user_id (a_id a)) (user_achievements (db w)) →
  award user_id now lc a w = (Raise DuplicateKeyError, w).
Proof.
  unfold award; intros -> Hex.
  unfold bind, insert_one_user_achievement, bind, read; simpl.
  destruct (decide _) as [|Hn]; [done|by destruct Hn].
Qed.

Lemma award_grant user_id now lc a w :
  earned (a_criteria a) lc = true →
  ¬ Exists (achievement_key user_id (a_id a)) (user_achievements (db w)) →
  award user_id now lc a w = (Ok tt, granted user_id now a w).
Proof.
  unfold award; intros -> Hex.
  unfold bind, insert_one_user_achievement, bind, read; simpl.
  destruct (decide _) as [|Hn]; [done|]. reflexivity.
Qed.

Lemma award_cases user_id now lc a w :
  award user_id now lc a w = (Ok tt, w) ∨
  award user_id now lc a w = (Raise DuplicateKeyError, w) ∨
  (¬ Exists (achievement_key user_id (a_id a)) (user_achievements (db w)) ∧
   award user_id now lc a w = (Ok tt, granted user_id now a w)).
Proof.
  destruct (earned (a_criteria a) lc) eqn:He.
  - destruct (decide (Exists (achievement_key user_id (a_id a))
                             (user_achievements (db w)))).
    + right; left; by apply award_conflict.
    + right; right; split; [done|by apply award_grant].
  - left; by apply award_skip.
Qed.

(** ** Completing a lesson twice *)

Lemma update_one_progress_modified user_id lesson_id now w p :
  progress_of user_id lesson_id (db w) = Some p →
  lp_completed_at p ≠ Some now →
  update_one_progress user_id lesson_id now w
  = (Ok (mkUpdateResult 1 1 None),
     mkWorld (set_lesson_progress
                (update_one (progress_key user_id lesson_id)
                            (set_completed now))
                (db w))
             (journal w)).
Proof.
  unfold progress_of, update_one_progress, bind, read; simpl.
  intros -> Hne; simpl. destruct (decide _) as [E|]; [|done].
  destruct Hne; by rewrite <-E.
Qed.

Lemma check_achievements_journal user_id now w :
  ∃ j, journal (check_achievements user_id now w).2 = journal w ++ j.
Proof.
  unfold check_achievements, bind, read; simpl.
  generalize (available_achievements user_id (db w)).
  generalize (count_documents (completed_by user_id)
                              (lesson_progress (db w))).
  intros lc l; revert w; induction l as [|a l IH]; intros w; simpl.
  - exists []; by rewrite app_nil_r.
  - unfold bind.
    destruct (award_cases user_id now lc a w) as [->|[->|[_ ->]]].
    + apply IH.
    + exists []; by rewrite app_nil_r.
    + destruct (IH (granted user_id now a w)) as [j ->]; simpl.
      rewrite <-app_assoc; eauto.
Qed.

(** Whenever the lesson exists and the learner's record of it carries
    another completion time than the new reading, the lesson reward is
    credited again. *)
Lemma complete_lesson_again_credits_again
    lesson_id current_user now w lesson p :
  find_one (λ l, l_id l = lesson_id) (lessons (db w)) = Some lesson →
  progress_of (u_id current_user) lesson_id (db w) = Some p →
  lp_completed_at p ≠ Some now →
  ∃ j, journal (complete_lesson lesson_id current_user now w).2
       = journal w ++ LessonPoints (u_id current_user) lesson_id
                                   (l_points_reward lesson) :: j.
Proof.
  intros Hfind Hp Hne.
  unfold complete_lesson. unfold bind at 1, read; simpl. rewrite Hfind.
  rewrite (bind_ok _ _ _ _ _
             (update_one_progress_modified _ _ _ _ _ Hp Hne)); simpl.
  unfold bind, update_one_points, record, write, ret; simpl.
  match goal with
  | |- context [check_achievements ?u ?n ?w1] =>
      destruct (check_achievements_journal u n w1) as [j Hj];
      destruct (check_achievements u n w1) as [[[]|e] w2]
  end; simpl in *; rewrite Hj, <-app_assoc; eauto.
Qed.

(** C1, on the code: the learner of [db_first] completes lesson L1 at
    time 1000 and again at time 2000.  Both calls report success.  The
    second call finds the completed record, rewrites its [completed_at],
    counts it as modified and credits the lesson reward a second time: the
    balance goes from 60 to 70 and the stored progress record changes.
    The achievement is not granted again. *)
Theorem complete_lesson_twice_credits_twice :
  let first := run (complete_lesson "L1" alice 1000) db_first in
  let second := complete_lesson "L1" alice 2000 first.2 in
  first.1 = Ok (mkAPIResponse true "Lesson completed") ∧
  second.1 = Ok (mkAPIResponse true "Lesson completed") ∧
  balance "u1" (db first.2) = Some 60 ∧
  balance "u1" (db second.2) = Some 70 ∧
  progress_of "u1" "L1" (db first.2)
    = Some (mkLessonProgress "u1" "L1" None (Some 1000) true None None) ∧
  progress_of "u1" "L1" (db second.2)
    = Some (mkLessonProgress "u1" "L1" None (Some 2000) true None None) ∧
  journal second.2
    = [LessonPoints "u1" "L1" 10; AchievementPoints "u1" "first_lesson" 50;
       LessonPoints "u1" "L1" 10].
Proof. repeat split; vm_compute; reflexivity. Qed.

(** ** Starting a quiz attempt *)

(** C9: a call for a quiz id that exists succeeds and appends one new
    attempt record (the generated id, no answers, score 0, not completed,
    [max_score] taken from the quiz found), whatever attempts the learner
    already has: every earlier record, completed or not, is kept.  A call
    for a quiz id that does not exist raises the 404 and changes nothing;
    the handler raises in no other case. *)
Theorem start_quiz_attempt_always_inserts
    (quiz_id : string) (current_user : User) (uuid : string) (now : datetime)
    (w : World) :
  (Exists (λ q, qz_id q = quiz_id) (quizzes (db w)) →
   ∃ quiz, quiz ∈ quizzes (db w) ∧ qz_id quiz = quiz_id ∧
     let attempt :=
       mkQuizAttempt uuid (u_id current_user) quiz_id ∅ 0
                     (qz_max_points quiz) now None false 0 in
     start_quiz_attempt quiz_id current_user uuid now w
     = (Ok attempt,
        mkWorld (set_quiz_attempts (λ c, c ++ [attempt]) (db w))
                (journal w))) ∧
  (¬ Exists (λ q, qz_id q = quiz_id) (quizzes (db w)) →
   start_quiz_attempt quiz_id current_user uuid now w
   = (Raise (HTTPException 404 "Quiz not found"), w)).
Proof.
  unfold start_quiz_attempt, bind, read; simpl; split; intros Hex.
  - destruct (find_one _ (quizzes (db w))) as [quiz|] eqn:E.
    + apply find_one_Some in E as [Hin Hid]. exists quiz; done.
    + apply find_one_None in E; done.
  - apply (proj2 (find_one_None _ _)) in Hex; rewrite Hex; done.
Qed.

Lemma start_quiz_attempt_always_inserts_witness :
  ∃ attempt w',
    start_quiz_attempt "Q1" alice "id-2" 2000
      (start_quiz_attempt "Q1" alice "id-1" 1000 (mkWorld db_quiz [])).2
    = (Ok attempt, w') ∧
    qa_id <$> quiz_attempts (db w') = ["id-1"; "id-2"] ∧
    qa_is_completed <$> quiz_attempts (db w') = [false; false].
Proof.
  destruct (proj1 (start_quiz_attempt_always_inserts "Q1" alice "id-2" 2000
    (start_quiz_attempt "Q1" alice "id-1" 1000 (mkWorld db_quiz [])).2))
    as (quiz & _ & _ & ->).
  - apply Exists_cons_hd; reflexivity.
  - eexists _, _; split; [reflexivity|]. split; reflexivity.
Defined.

Lemma hide_correct_answer_blank q :
  q_correct_answer (hide_correct_answer q) = EmptyString.
Proof. reflexivity. Qed.

Lemma quiz_for_student_blank quiz :
  Forall (λ q, q_correct_answer q = EmptyString)
         (qz_questions (quiz_for_student quiz)).
Proof. apply Forall_fmap, Forall_true; intros q; reflexivity. Qed.

Lemma start_quiz_attempt_frame quiz_id current_user uuid now w :
  let result := start_quiz_attempt quiz_id current_user uuid now w in
  quizzes (db result.2) = quizzes (db w) ∧
  users (db result.2) = users (db w) ∧
  lessons (db result.2) = lessons (db w) ∧
  lesson_progress (db result.2) = lesson_progress (db w) ∧
  achievements (db result.2) = achievements (db w) ∧
  user_achievements (db result.2) = user_achievements (db w).
Proof.
  unfold start_quiz_attempt, bind, read; simpl.
  destruct (find_one _ (quizzes (db w))); simpl; repeat split; done.
Qed.

(** C6, on the code: a learner starts an attempt on quiz Q1 of [db_quiz],
    whose two stored questions carry the correct answers "func" and
    "true".  The handler answers with the attempt record and nothing
    else: the ten fields of the attempt, none of which is a question, so
    no question set reaches the caller, redacted or not.  The copy with
    the blanked answers, [quiz_for_student quiz_go], is built and then
    dropped.  The stored quiz stays as it was, answers included. *)
Theorem start_quiz_attempt_returns_no_questions :
  let result := run (start_quiz_attempt "Q1" alice "id-1" 1000) db_quiz in
  result.1
  = Ok (mkQuizAttempt "id-1" "u1" "Q1" ∅ 0 15 1000 None false 0) ∧
  quiz_attempts (db result.2)
  = [mkQuizAttempt "id-1" "u1" "Q1" ∅ 0 15 1000 None false 0] ∧
  quizzes (db result.2) = [quiz_go] ∧
  q_correct_answer <$> qz_questions quiz_go = ["func"; "true"] ∧
  q_correct_answer <$> qz_questions (quiz_for_student quiz_go)
  = [EmptyString; EmptyString].
Proof. repeat split; vm_compute; reflexivity. Qed.

(** ** Criteria evaluation *)

Lemma earned_true criteria lc :
  earned criteria lc = true ↔
  ∃ threshold, criteria !! "lessons_completed" = Some threshold ∧
               threshold ≤ lc.
Proof.
  unfold earned; destruct (criteria !! "lessons_completed") as [t|].
  - rewrite bool_decide_eq_true; split; [eauto|].
    intros (t' & [= <-] & Hle); done.
  - split; [done|]. intros (t' & [=] & _).
Qed.

Lemma spec_evaluate_single metric threshold stats :
  spec_evaluate {[ metric := threshold ]} stats = true ↔
  criterion_satisfied stats metric threshold.
Proof.
  unfold spec_evaluate; rewrite bool_decide_eq_true.
  apply map_Forall_singleton.
Qed.

(** C3, as stated, fails: with one completed lesson and no completed quiz
    the code judges the descriptor
    [{lessons_completed: 1, quizzes_completed: 5}] earned, while its
    second criterion is not satisfied. *)
Lemma earned_is_not_the_conjunction :
  earned lessons_and_quizzes 1 = true ∧
  spec_evaluate lessons_and_quizzes (aggregate_statistics 1 0) = false ∧
  ¬ criterion_satisfied (aggregate_statistics 1 0) "quizzes_completed" 5.
Proof. split; [|split]; [vm_compute; reflexivity ..|vm_compute; done]. Qed.

(** C3, amended: an achievement is judged earned exactly when its
    descriptor lists [lessons_completed] with a threshold the learner's
    count of completed lessons has reached; for a descriptor with that
    single metric this is the conjunction of the specification.  On
    [db_five], the achievement that requires five lessons is not held after
    four completions and is held, with its reward credited, after the call
    that completes the fifth. *)
Theorem earned_iff_lessons_threshold :
  (∀ criteria lc,
     earned criteria lc = true ↔
     ∃ threshold, criteria !! "lessons_completed" = Some threshold ∧
                  threshold ≤ lc) ∧
  (∀ threshold lc qc,
     earned {[ "lessons_completed" := threshold ]} lc
     = spec_evaluate {[ "lessons_completed" := threshold ]}
                     (aggregate_statistics lc qc)) ∧
  (let four :=
     serve [CompleteLesson "L1" alice 1000; CompleteLesson "L2" alice 2000;
            CompleteLesson "L3" alice 3000; CompleteLesson "L4" alice 4000]
           (mkWorld db_five []) in
   let fifth := complete_lesson "L5" alice 5000 four in
   earned_ids "u1" (db four) = [] ∧
   balance "u1" (db four) = Some 40 ∧
   fifth.1 = Ok (mkAPIResponse true "Lesson completed") ∧
   earned_ids "u1" (db fifth.2) = ["five_lessons"] ∧
   balance "u1" (db fifth.2) = Some 200).
Proof.
  split; [exact earned_true|split].
  - intros t lc qc. apply eq_true_iff_eq.
    rewrite earned_true, spec_evaluate_single, lookup_singleton_eq.
    unfold criterion_satisfied, aggregate_statistics.
    rewrite lookup_insert_eq. split; [intros (? & [= <-] & ?); done|eauto].
  - repeat split; vm_compute; reflexivity.
Qed.

(** C7, as stated, fails: [streak_days] is a metric the pass computes no
    statistic for, yet the achievement of [db_streak], whose descriptor
    lists it next to [lessons_completed], is granted by the first lesson
    completion. *)
Lemma unknown_metric_is_ignored :
  lessons_and_streak !! "streak_days" = Some 7 ∧
  earned lessons_and_streak 1 = true ∧
  let result := run (complete_lesson "L1" alice 1000) db_streak in
  result.1 = Ok (mkAPIResponse true "Lesson completed") ∧
  earned_ids "u1" (db result.2) = ["steady"] ∧
  balance "u1" (db result.2) = Some 210.
Proof. repeat split; vm_compute; reflexivity. Qed.

(** C7, amended: an achievement whose descriptor does not list
    [lessons_completed] (all its metrics are unknown to the pass) is
    judged not earned without raising; its turn in the loop changes
    nothing, and the pass goes on as if it were not in the list. *)
Theorem unknown_only_achievement_is_skipped
    (user_id : string) (now : datetime) (lc : Z) (a : Achievement)
    (l1 l2 : list Achievement) (w : World) :
  a_criteria a !! "lessons_completed" = None →
  earned (a_criteria a) lc = false ∧
  award user_id now lc a w = (Ok tt, w) ∧
  for_each (award user_id now lc) (l1 ++ a :: l2) w
  = for_each (award user_id now lc) (l1 ++ l2) w.
Proof.
  intros Hnone.
  assert (earned (a_criteria a) lc = false) as He
    by (unfold earned; rewrite Hnone; done).
  split; [done|]. split; [by apply award_skip|].
  revert w; induction l1 as [|x l1 IH]; intros w; simpl.
  - unfold bind; rewrite award_skip; done.
  - unfold bind. destruct (award user_id now lc x w) as [[[]|e] w0]; auto.
Qed.

Lemma unknown_only_achievement_is_skipped_witness :
  let first_lesson := achievement_n "first_lesson" 50
                                    {[ "lessons_completed" := 1 ]} in
  earned (a_criteria week_streak) 7 = false ∧
  award "u1" 1000 7 week_streak (mkWorld db_first [])
  = (Ok tt, mkWorld db_first []) ∧
  for_each (award "u1" 1000 7) ([] ++ week_streak :: [first_lesson])
           (mkWorld db_first [])
  = for_each (award "u1" 1000 7) ([] ++ [first_lesson]) (mkWorld db_first []).
Proof.
  apply (unknown_only_achievement_is_skipped "u1" 1000 7 week_streak).
  vm_compute; reflexivity.
Defined.

(** ** Every request is a sequence of atomic writes *)

Lemma step_catalogue w w' :
  step w w' →
  lessons (db w') = lessons (db w) ∧
  achievements (db w') = achievements (db w).
Proof. destruct 1; done. Qed.

Lemma rtc_step_catalogue w w' :
  rtc step w w' →
  lessons (db w') = lessons (db w) ∧
  achievements (db w') = achievements (db w).
Proof.
  induction 1 as [|w w1 w2 H1 _ [IHl IHa]]; [done|].
  apply step_catalogue in H1 as [Hl Ha]; split; congruence.
Qed.

Lemma award_steps user_id now lc a w :
  a ∈ achievements (db w) → rtc step w (award user_id now lc a w).2.
Proof.
  intros Hin.
  destruct (award_cases user_id now lc a w) as [->|[->|[Hex ->]]];
    simpl; [done..|].
  apply rtc_once, step_grant; done.
Qed.

Lemma for_each_award_steps user_id now lc l w :
  (∀ a, a ∈ l → a ∈ achievements (db w)) →
  rtc step w (for_each (award user_id now lc) l w).2.
Proof.
  revert w; induction l as [|a l IH]; intros w Hl; simpl; [done|].
  pose proof (award_steps user_id now lc a w (Hl a ltac:(left))) as Ha.
  unfold bind. destruct (award user_id now lc a w) as [[[]|e] w1]; simpl in *;
    [|done].
  etrans; [exact Ha|]. apply IH. intros a' Ha'.
  apply rtc_step_catalogue in Ha as [_ ->]. apply Hl; by right.
Qed.

Lemma check_achievements_steps user_id now w :
  rtc step w (check_achievements user_id now w).2.
Proof.
  unfold check_achievements, bind, read; simpl.
  apply for_each_award_steps. intros a Ha.
  apply find_to_list_elem_of in Ha; tauto.
Qed.

Lemma update_one_progress_steps user_id lesson_id now w :
  ∃ result f,
    update_one_progress user_id lesson_id now w
    = (Ok result, mkWorld (set_lesson_progress f (db w)) (journal w)).
Proof.
  unfold update_one_progress, bind, read; simpl.
  destruct (find_one _ _); simpl; eauto.
Qed.

Lemma complete_lesson_steps lesson_id current_user now w :
  rtc step w (complete_lesson lesson_id current_user now w).2.
Proof.
  unfold complete_lesson.
  unfold bind at 1, read; simpl.
  destruct (find_one _ (lessons (db w))) as [lesson|] eqn:El; [|done].
  apply find_one_Some in El as [Hin Hid]; simpl in Hid.
  destruct (update_one_progress_steps (u_id current_user) lesson_id now w)
    as (result & f & Hu).
  rewrite (bind_ok _ _ _ _ _ Hu).
  etrans; [apply rtc_once, (step_progress f)|].
  set (w1 := mkWorld _ _).
  destruct (_ || _); unfold bind, ret; simpl.
  - subst lesson_id.
    etrans; [apply rtc_once, (step_lesson_credit (u_id current_user) lesson);
             exact Hin|].
    match goal with
    | |- context [check_achievements ?u ?n ?w2] =>
        pose proof (check_achievements_steps u n w2) as Hc;
        destruct (check_achievements u n w2) as [[[]|e] w3]
    end; exact Hc.
  - done.
Qed.

Lemma start_lesson_steps lesson_id current_user now w :
  rtc step w (start_lesson lesson_id current_user now w).2.
Proof.
  unfold start_lesson, bind, read; simpl.
  destruct (find_one _ (lessons (db w))); [|done].
  destruct (find_one _ (lesson_progress (db w))); [done|].
  unfold insert_one_progress, bind, read; simpl.
  destruct (decide _); simpl; [done|].
  apply rtc_once, (step_progress (λ c, c ++ [_])).
Qed.

Lemma start_quiz_attempt_steps quiz_id current_user uuid now w :
  rtc step w (start_quiz_attempt quiz_id current_user uuid now w).2.
Proof.
  unfold start_quiz_attempt, bind, read; simpl.
  destruct (find_one _ (quizzes (db w))); [|done].
  apply rtc_once, (step_attempts (λ c, c ++ [_])).
Qed.

Lemma handle_steps r w : rtc step w (handle r w).
Proof.
  destruct r; simpl;
    auto using start_lesson_steps, complete_lesson_steps,
               start_quiz_attempt_steps.
Qed.

Lemma serve_steps rs w : rtc step w (serve rs w).
Proof.
  revert w; induction rs as [|r rs IH]; intros w; simpl; [done|].
  etrans; [apply handle_steps|apply IH].
Qed.

(** ** At-most-once award *)

Lemma records_of_granted u x user_id now a w :
  records_of u x (db (granted user_id now a w))
  = (records_of u x (db w)
     + if decide (user_id = u ∧ a_id a = x) then 1 else 0)%nat.
Proof.
  unfold records_of, granted; simpl.
  rewrite filter_app, length_app; f_equal.
  rewrite filter_cons, filter_nil. unfold achievement_key at 1; simpl.
  repeat destruct (decide _); done.
Qed.

Lemma credits_of_granted u x user_id now a w :
  credits_of u x (journal (granted user_id now a w))
  = (credits_of u x (journal w)
     + if decide (user_id = u ∧ a_id a = x) then 1 else 0)%nat.
Proof.
  unfold credits_of, granted; simpl.
  rewrite filter_app, length_app; f_equal.
  rewrite filter_cons, filter_nil; simpl.
  repeat destruct (decide _); done.
Qed.

Lemma records_of_0 user_id achievement_id d :
  ¬ Exists (achievement_key user_id achievement_id) (user_achievements d) →
  records_of user_id achievement_id d = 0%nat.
Proof.
  unfold records_of; intros Hex.
  destruct (filter _ _) as [|ua l] eqn:E; [done|].
  destruct Hex; apply Exists_exists; exists ua.
  assert (ua ∈ filter (achievement_key user_id achievement_id)
                      (user_achievements d)) as Hin by (rewrite E; left).
  apply list_elem_of_filter in Hin; tauto.
Qed.

Lemma step_ledger_ok w w' : step w w' → ledger_ok w → ledger_ok w'.
Proof.
  destruct 1 as [f w|f w|uid lesson w Hin|uid now a w Hin Hex];
    intros Hok u x; destruct (Hok u x) as [Hc Hr]; try done.
  - unfold credits_of in *; simpl.
    rewrite filter_app, length_app, filter_cons, filter_nil; simpl.
    unfold records_of in *; simpl in *. lia.
  - rewrite records_of_granted, credits_of_granted.
    destruct (decide _) as [[-> <-]|]; [|lia].
    rewrite (records_of_0 _ _ _ Hex) in *. lia.
Qed.

Lemma rtc_step_ledger_ok w w' : rtc step w w' → ledger_ok w → ledger_ok w'.
Proof. induction 1; eauto using step_ledger_ok. Qed.

(** C2: from a database whose unique index on (learner, achievement) holds,
    after any sequence of requests (lesson completions, lesson starts and
    quiz attempt starts, in any order, succeeding or failing), every
    (learner, achievement) pair has at most one record, and the journal
    shows at most one credit of the achievement's reward to the learner,
    none unless the record exists. *)
Theorem achievement_awarded_at_most_once
    (d : DB) (rs : list Request) (user_id achievement_id : string) :
  unique_index d →
  let w := serve rs (mkWorld d []) in
  (records_of user_id achievement_id (db w) ≤ 1)%nat ∧
  (credits_of user_id achievement_id (journal w) ≤ 1)%nat ∧
  (credits_of user_id achievement_id (journal w)
   ≤ records_of user_id achievement_id (db w))%nat.
Proof.
  intros Hd w.
  assert (ledger_ok w) as Hok.
  { apply (rtc_step_ledger_ok (mkWorld d [])); [apply serve_steps|].
    intros u x; split; [unfold credits_of; simpl; lia|apply Hd]. }
  destruct (Hok user_id achievement_id); lia.
Qed.

Lemma achievement_awarded_at_most_once_witness :
  let w := serve [CompleteLesson "L1" alice 1000;
                  CompleteLesson "L2" alice 2000;
                  CompleteLesson "L1" alice 3000]
                 (mkWorld db_first []) in
  (records_of "u1" "first_lesson" (db w) ≤ 1)%nat ∧
  (credits_of "u1" "first_lesson" (journal w) ≤ 1)%nat ∧
  (credits_of "u1" "first_lesson" (journal w)
   ≤ records_of "u1" "first_lesson" (db w))%nat.
Proof.
  apply (achievement_awarded_at_most_once db_first).
  intros u x; unfold records_of; simpl. lia.
Defined.

(** ** Monotone point balances *)

Lemma points_grow_refl us : points_grow us us.
Proof. apply Forall_Forall2_diag, Forall_true; intros u; split; [done|lia]. Qed.

Lemma points_grow_trans us1 us2 us3 :
  points_grow us1 us2 → points_grow us2 us3 → points_grow us1 us3.
Proof.
  unfold points_grow; intros H12; revert us3.
  induction H12 as [|u1 u2 l1 l2 [Hid Hp] _ IH]; intros us3 H23;
    inversion H23 as [|? u3 ? l3 [Hid' Hp'] Hrest]; subst; constructor.
  - split; [congruence|lia].
  - by apply IH.
Qed.

Lemma points_grow_update_one user_id n us :
  0 ≤ n →
  points_grow us (update_one (λ u, u_id u = user_id) (inc_points n) us).
Proof.
  intros Hn; induction us as [|u us IH]; simpl; [constructor|].
  destruct (decide _).
  - constructor; [simpl; split; [done|lia]|apply points_grow_refl].
  - constructor; [split; [done|lia]|exact IH].
Qed.

Lemma points_grow_balance us us' user_id b :
  points_grow us us' →
  u_points <$> find_one (λ u, u_id u = user_id) us = Some b →
  ∃ b', u_points <$> find_one (λ u, u_id u = user_id) us' = Some b' ∧ b ≤ b'.
Proof.
  unfold find_one; induction 1 as [|u u' l l' [Hid Hp] _ IH]; [done|].
  rewrite !filter_cons. rewrite Hid.
  destruct (decide (u_id u = user_id)); simpl; [|exact IH].
  intros [= <-]; eauto.
Qed.

Lemma step_points_grow w w' :
  step w w' → rewards_nonneg (db w) →
  points_grow (users (db w)) (users (db w')).
Proof.
  destruct 1 as [f w|f w|uid lesson w Hin|uid now a w Hin Hex];
    intros [Hl Ha]; simpl; try apply points_grow_refl.
  - apply points_grow_update_one.
    rewrite Forall_forall in Hl; by apply Hl.
  - apply points_grow_update_one.
    rewrite Forall_forall in Ha; by apply Ha.
Qed.

Lemma rtc_step_points_grow w w' :
  rtc step w w' → rewards_nonneg (db w) →
  points_grow (users (db w)) (users (db w')).
Proof.
  induction 1 as [|w w1 w2 H1 H2 IH]; intros Hn; [apply points_grow_refl|].
  eapply points_grow_trans; [by apply step_points_grow|].
  apply IH. apply step_catalogue in H1 as [Hl Ha].
  unfold rewards_nonneg; rewrite Hl, Ha; exact Hn.
Qed.

(** C10: when every lesson reward and every achievement reward in the
    database is non-negative, any sequence of requests, succeeding or
    failing, leaves the users collection with the same learners and no
    learner with fewer points; in particular a balance read before the
    sequence is at most the balance read after it. *)
Theorem point_balances_never_decrease
    (w : World) (rs : list Request) (user_id : string) (b : Z) :
  rewards_nonneg (db w) →
  balance user_id (db w) = Some b →
  points_grow (users (db w)) (users (db (serve rs w))) ∧
  ∃ b', balance user_id (db (serve rs w)) = Some b' ∧ b ≤ b'.
Proof.
  intros Hn Hb.
  assert (points_grow (users (db w)) (users (db (serve rs w)))) as Hg
    by (apply rtc_step_points_grow; [apply serve_steps|done]).
  split; [done|]. by eapply points_grow_balance.
Qed.

Lemma point_balances_never_decrease_witness :
  points_grow (users db_first)
    (users (db (serve [CompleteLesson "L1" alice 1000;
                       StartLesson "L2" alice 1500;
                       CompleteLesson "L9" alice 2000]
                      (mkWorld db_first [])))) ∧
  ∃ b', balance "u1"
          (db (serve [CompleteLesson "L1" alice 1000;
                      StartLesson "L2" alice 1500;
                      CompleteLesson "L9" alice 2000]
                     (mkWorld db_first []))) = Some b' ∧ 0 ≤ b'.
Proof.
  apply (point_balances_never_decrease (mkWorld db_first [])).
  - split; simpl; repeat constructor; simpl; lia.
  - reflexivity.
Defined.

(** ** Order of the achievement pass *)

Lemma inc_points_0 u : inc_points 0 u = u.
Proof. destruct u; unfold inc_points; simpl; f_equal; lia. Qed.

Lemma update_one_inc_points_0 user_id us :
  update_one (λ u, u_id u = user_id) (inc_points 0) us = us.
Proof.
  induction us as [|u us IH]; simpl; [done|].
  destruct (decide _); [by rewrite inc_points_0|by rewrite IH].
Qed.

Lemma update_one_inc_points_twice user_id n m us :
  update_one (λ u, u_id u = user_id) (inc_points m)
             (update_one (λ u, u_id u = user_id) (inc_points n) us)
  = update_one (λ u, u_id u = user_id) (inc_points (n + m)) us.
Proof.
  induction us as [|u us IH]; simpl; [done|].
  destruct (decide (u_id u = user_id)) as [Hu|Hu]; simpl.
  - rewrite decide_True by done.
    unfold inc_points; simpl; do 2 f_equal; lia.
  - rewrite decide_False by done. by rewrite IH.
Qed.

Lemma all_granted_nil user_id now w : all_granted user_id now [] w = w.
Proof.
  destruct w as [[] j]; unfold all_granted, set_users, set_user_achievements;
    simpl. by rewrite update_one_inc_points_0, !app_nil_r.
Qed.

Lemma all_granted_cons user_id now a l w :
  all_granted user_id now l (granted user_id now a w)
  = all_granted user_id now (a :: l) w.
Proof.
  unfold all_granted, granted, set_users, set_user_achievements; simpl.
  rewrite update_one_inc_points_twice, <-!app_assoc; done.
Qed.

Lemma not_held_iff user_id achievement_id d :
  achievement_id ∉ earned_ids user_id d ↔
  ¬ Exists (achievement_key user_id achievement_id) (user_achievements d).
Proof.
  unfold earned_ids; rewrite list_elem_of_fmap, Exists_exists.
  apply not_iff_compat; split.
  - intros (ua & -> & Hin). apply list_elem_of_filter in Hin as [Hu Hin].
    exists ua; done.
  - intros (ua & Hin & Hu & Ha). exists ua; split; [done|].
    apply list_elem_of_filter; done.
Qed.

(** Without conflicts the pass grants exactly the achievements whose test
    succeeds. *)
Lemma for_each_award_all_granted user_id now lc l w :
  NoDup (a_id <$> l) →
  (∀ a, a ∈ l → a_id a ∉ earned_ids user_id (db w)) →
  for_each (award user_id now lc) l w
  = (Ok tt, all_granted user_id now (earned_among lc l) w).
Proof.
  revert w; induction l as [|a l IH]; intros w Hnd Hnew; simpl.
  - by rewrite all_granted_nil.
  - apply NoDup_cons in Hnd as [Ha Hnd]. unfold earned_among.
    rewrite filter_cons. unfold bind.
    destruct (earned (a_criteria a) lc) eqn:He.
    + rewrite decide_True by done.
      rewrite award_grant;
        [|done|by apply not_held_iff, Hnew; left].
      rewrite IH; [by rewrite all_granted_cons|done|].
      intros a' Ha'. apply not_held_iff.
      unfold granted; simpl. rewrite Exists_app, Exists_cons, Exists_nil.
      intros [Hex|[[_ Hid]|[]]].
      * revert Hex; apply not_held_iff, Hnew; by right.
      * simpl in Hid. apply Ha; rewrite Hid.
        apply list_elem_of_fmap; eauto.
    + rewrite decide_False by done.
      rewrite award_skip by done. apply IH; [done|].
      intros a' Ha'; apply Hnew; by right.
Qed.

Lemma total_reward_Permutation l1 l2 :
  l1 ≡ₚ l2 → total_reward l1 = total_reward l2.
Proof.
  unfold total_reward; induction 1; simpl; [done|congruence|lia|congruence].
Qed.

Lemma earned_ids_all_granted user_id now l w :
  earned_ids user_id (db (all_granted user_id now l w))
  = earned_ids user_id (db w) ++ (a_id <$> l).
Proof.
  unfold earned_ids, all_granted; simpl.
  rewrite filter_app, fmap_app; f_equal.
  induction l as [|a l IH]; [done|].
  rewrite fmap_cons, filter_cons_True by done. by rewrite fmap_cons, IH.
Qed.

(** The candidates [check_achievements] computes are distinct and not yet
    held when achievement identifiers are unique and the learner holds at
    most 100 achievements. *)
Lemma available_achievements_candidates user_id d :
  NoDup (a_id <$> achievements d) →
  (length (filter (λ ua, ua_user_id ua = user_id) (user_achievements d))
   ≤ 100)%nat →
  NoDup (a_id <$> available_achievements user_id d) ∧
  ∀ a, a ∈ available_achievements user_id d →
       a_id a ∉ earned_ids user_id d.
Proof.
  intros Hnd Hlen; unfold available_achievements, find_to_list; split.
  - eapply sublist_NoDup; [exact Hnd|].
    apply fmap_sublist. etrans; [apply sublist_take|apply sublist_filter].
  - intros a Ha. apply subseteq_take, list_elem_of_filter in Ha as [[_ Hn] _].
    rewrite take_ge in Hn by done. exact Hn.
Qed.

(** C8, as stated, fails: in the pass that the first lesson completion
    of the learner of [db_many] runs, the candidates are achievement 100,
    whose insert conflicts, and the starter achievement.  In that order
    the pass stops at once and the learner gains nothing; in the other
    order the starter achievement is granted and its 20 points credited
    before the pass stops. *)
Lemma achievement_pass_order_matters_on_conflict :
  let w1 := lesson_credited (lesson_n "L1" 10) "u1"
              (update_one_progress "u1" "L1" 1000 (mkWorld db_many [])).2 in
  let candidates := available_achievements "u1" (db w1) in
  let r1 := for_each (award "u1" 1000 1) candidates w1 in
  let r2 := for_each (award "u1" 1000 1) (reverse candidates) w1 in
  (a_id <$> candidates) = ["100"; "starter"] ∧
  ("starter" ∉ earned_ids "u1" (db r1.2)) ∧
  "starter" ∈ earned_ids "u1" (db r2.2) ∧
  balance "u1" (db r1.2) = Some 10 ∧
  balance "u1" (db r2.2) = Some 30.
Proof.
  repeat split; try (vm_compute; reflexivity);
    apply (bool_decide_unpack _); vm_compute; exact I.
Qed.

(** C8, amended: for candidates with distinct identifiers, none of which the learner
    holds, the pass run over any permutation of the list returns normally
    and leaves the same set of held achievements, the same users
    collection, hence the same balance for every learner, and the same
    credits; each test reads only the count [lc] taken before the loop. *)
Theorem achievement_pass_order_independent
    (user_id : string) (now : datetime) (lc : Z) (l1 l2 : list Achievement)
    (w : World) :
  l1 ≡ₚ l2 →
  NoDup (a_id <$> l1) →
  (∀ a, a ∈ l1 → a_id a ∉ earned_ids user_id (db w)) →
  let r1 := for_each (award user_id now lc) l1 w in
  let r2 := for_each (award user_id now lc) l2 w in
  r1.1 = Ok tt ∧ r2.1 = Ok tt ∧
  earned_ids user_id (db r1.2) ≡ₚ earned_ids user_id (db r2.2) ∧
  users (db r1.2) = users (db r2.2) ∧
  (∀ u, balance u (db r1.2) = balance u (db r2.2)) ∧
  journal r1.2 ≡ₚ journal r2.2.
Proof.
  intros Hp Hnd Hnew; cbv zeta.
  assert (earned_among lc l1 ≡ₚ earned_among lc l2) as Hpe
    by (unfold earned_among; by rewrite Hp).
  rewrite (for_each_award_all_granted _ _ _ l1) by done.
  rewrite (for_each_award_all_granted _ _ _ l2); cycle 1.
  { by rewrite <-Hp. }
  { intros a Ha; apply Hnew; by rewrite Hp. }
  cbn [fst snd]. split; [done|]. split; [done|].
  rewrite !earned_ids_all_granted.
  assert (users (db (all_granted user_id now (earned_among lc l1) w))
          = users (db (all_granted user_id now (earned_among lc l2) w)))
    as Hu by (simpl; by rewrite (total_reward_Permutation _ _ Hpe)).
  split; [by rewrite Hpe|]. split; [done|].
  split; [intros u; unfold balance; by rewrite Hu|].
  simpl. by rewrite Hpe.
Qed.

Lemma achievement_pass_order_independent_witness :
  let a := achievement_n "first_lesson" 50 {[ "lessons_completed" := 1 ]} in
  let b := achievement_n "starter" 20 {[ "lessons_completed" := 1 ]} in
  let c := achievement_n "five_lessons" 150 {[ "lessons_completed" := 5 ]} in
  let r1 := for_each (award "u1" 1000 1) [a; b; c] (mkWorld db_first []) in
  let r2 := for_each (award "u1" 1000 1) [c; b; a] (mkWorld db_first []) in
  r1.1 = Ok tt ∧ r2.1 = Ok tt ∧
  earned_ids "u1" (db r1.2) ≡ₚ earned_ids "u1" (db r2.2) ∧
  users (db r1.2) = users (db r2.2) ∧
  (∀ u, balance u (db r1.2) = balance u (db r2.2)) ∧
  journal r1.2 ≡ₚ journal r2.2.
Proof.
  intros a b c.
  apply (achievement_pass_order_independent "u1" 1000 1 [a; b; c] [c; b; a]).
  - symmetry; apply (reverse_Permutation [a; b; c]).
  - apply (bool_decide_unpack _); vm_compute; exact I.
  - intros x _; simpl. apply not_elem_of_nil.
Defined.

(** ** Storage conflicts in the achievement pass *)

(** C4, as stated, fails: the learner of [db_many] completes a first
    lesson.  Only the first 100 of the 101 records are read back, so
    achievement 100 is taken for a candidate and its insert hits the unique
    index.  The error is not swallowed: the request ends with
    [DuplicateKeyError] instead of the success response, and the candidate
    after it, whose threshold the learner has reached, is never examined.
    The progress record and the lesson reward written before the pass
    stay. *)
Lemma storage_conflict_fails_the_request :
  let result := run (complete_lesson "L1" alice 1000) db_many in
  result.1 = Raise DuplicateKeyError ∧
  (a_id <$> available_achievements "u1" (db result.2))
    = ["100"; "starter"] ∧
  earned {[ "lessons_completed" := 1 ]} 1 = true ∧
  ("starter" ∉ earned_ids "u1" (db result.2)) ∧
  balance "u1" (db result.2) = Some 10 ∧
  progress_of "u1" "L1" (db result.2)
    = Some (mkLessonProgress "u1" "L1" None (Some 1000) true None None).
Proof.
  repeat split; try (vm_compute; reflexivity).
  apply (bool_decide_unpack _); vm_compute; exact I.
Qed.

(** C4, amended: a storage conflict in the achievement pass is not caught.
    When [complete_lesson] has written the progress record and credited
    the lesson reward, and the pass it then runs reaches, after the
    candidates [l1], a candidate whose test succeeds and whose record the
    learner already has, the request ends with [DuplicateKeyError] in the
    world the candidates [l1] left: their grants and the lesson reward
    stay, and the candidates [l2] behind the conflict are not examined. *)
Theorem storage_conflict_aborts_pass_and_request
    (lesson_id : string) (current_user : User) (now : datetime) (w : World)
    (lesson : Lesson) (result : UpdateResult) (wp : World)
    (l1 l2 : list Achievement) (a : Achievement) (w2 : World) :
  let user_id := u_id current_user in
  let w1 := lesson_credited lesson user_id wp in
  let lc := count_documents (completed_by user_id)
                            (lesson_progress (db w1)) in
  find_one (λ l, l_id l = lesson_id) (lessons (db w)) = Some lesson →
  update_one_progress user_id lesson_id now w = (Ok result, wp) →
  is_Some (upserted_id result) ∨ 0 < modified_count result →
  available_achievements user_id (db w1) = l1 ++ a :: l2 →
  for_each (award user_id now lc) l1 w1 = (Ok tt, w2) →
  earned (a_criteria a) lc = true →
  Exists (achievement_key user_id (a_id a)) (user_achievements (db w2)) →
  complete_lesson lesson_id current_user now w
  = (Raise DuplicateKeyError, w2).
Proof.
  intros user_id w1 lc Hfind Hupd Hguard Havail Hl1 He Hex.
  pose proof (find_one_Some _ _ _ Hfind) as [_ Hid]; simpl in Hid.
  unfold complete_lesson. unfold bind at 1, read; simpl. rewrite Hfind.
  rewrite (bind_ok _ _ _ _ _ Hupd).
  assert (bool_decide (is_Some (upserted_id result))
          || bool_decide (0 < modified_count result) = true) as ->.
  { destruct Hguard; [rewrite bool_decide_eq_true_2 by done; done|].
    rewrite (bool_decide_eq_true_2 (0 < _)) by done. apply orb_true_r. }
  apply bind_raise.
  unfold update_one_points, record, write, bind at 1 2; simpl.
  unfold check_achievements, bind, read; simpl. subst lesson_id.
  change (for_each (award user_id now lc)
                   (available_achievements user_id (db w1)) w1
          = (Raise DuplicateKeyError, w2)).
  rewrite Havail.
  rewrite (for_each_app _ _ _ _ _ Hl1); simpl.
  unfold bind. by rewrite award_conflict.
Qed.

Lemma storage_conflict_aborts_pass_and_request_witness :
  complete_lesson "L1" alice 1000 (mkWorld db_many [])
  = (Raise DuplicateKeyError,
     lesson_credited (lesson_n "L1" 10) "u1"
       (mkWorld
          (set_lesson_progress
             (λ c, c ++ [mkLessonProgress "u1" "L1" None (Some 1000) true
                                          None None])
             db_many)
          [])).
Proof.
  eapply (storage_conflict_aborts_pass_and_request
           "L1" alice 1000 (mkWorld db_many []) (lesson_n "L1" 10)
           (mkUpdateResult 0 0 (Some 0%nat)) _ []
           [achievement_n "starter" 20 {[ "lessons_completed" := 1 ]}]
           (achievement_n "100" 50 {[ "lessons_completed" := 1 ]})).
  - reflexivity.
  - reflexivity.
  - left; simpl; eauto.
  - vm_compute; reflexivity.
  - reflexivity.
  - vm_compute; reflexivity.
  - apply (bool_decide_unpack _); vm_compute; exact I.
Defined.

(** ** Quiz scoring *)

Section ScorerFacts.
Variable question_id : nat → QuizQuestion → string.

Lemma tally_sums position questions answers won available :
  tally question_id position questions answers won available
  = (won + total_points (matched question_id position questions answers),
     available + total_points questions).
Proof.
  revert position won available.
  induction questions as [|q rest IH]; intros position won available; simpl.
  - f_equal; lia.
  - rewrite IH. destruct (answer_matches _ _); simpl; f_equal; lia.
Qed.

Lemma matched_sublist position questions answers :
  matched question_id position questions answers `sublist_of` questions.
Proof.
  revert position; induction questions as [|q rest IH]; intros position;
    simpl; [done|].
  destruct (answer_matches _ _); [by apply sublist_skip|by apply sublist_cons].
Qed.

(** C5: the scorer returns as [score] the sum of the points of the
    questions the submission matches under the type-aware comparison and
    as [maxScore] the sum of the points of all questions; [passed] holds
    exactly when [maxScore] is not zero and
    [score / maxScore * 100 >= passing_score]; a quiz whose [maxScore] is
    zero is reported as degenerate content, with [passed] false, and no
    other quiz is. *)
Theorem score_quiz_correct
    (questions : list QuizQuestion) (passing_score : Z)
    (answers : gmap string string) :
  let r := score_quiz question_id questions passing_score answers in
  score r = total_points (matched question_id 0 questions answers) ∧
  maxScore r = total_points questions ∧
  (passed r = true ↔
   maxScore r ≠ 0 ∧
   (inject_Z passing_score
    <= inject_Z (score r) / inject_Z (maxScore r) * 100)%Q) ∧
  (condition r = Some DegenerateContent ↔ maxScore r = 0) ∧
  (condition r = None ↔ maxScore r ≠ 0).
Proof.
  unfold score_quiz; rewrite tally_sums, !Z.add_0_l.
  destruct (decide (total_points questions = 0)) as [Hz|Hz]; simpl.
  - repeat split; try done; intros; try tauto; try discriminate.
  - rewrite Qle_bool_iff. repeat split; try done; try tauto.
Qed.
End ScorerFacts.

(** The questions worth 10, 5 and 15 points of the specification's
    example: a submission that matches the first and the third scores 25
    of 30, one that matches only the first does not pass at 70 percent,
    and one that matches all three does. *)
Example score_quiz_example :
  let by_position (i : nat) (_ : QuizQuestion) := pretty i in
  let questions :=
    [mkQuizQuestion "Keyword for a function?" FREE_TEXT None "func" None 10;
     mkQuizQuestion "Go is compiled" TRUE_FALSE None "true" None 5;
     mkQuizQuestion "Zero value of int" MULTIPLE_CHOICE
                    (Some ["0"; "nil"]) "0" None 15] in
  score_quiz by_position questions 70
             {[ "0" := " func "; "1" := "True"; "2" := "0" ]}
  = mkScoreResult 25 30 true None ∧
  score_quiz by_position questions 70 {[ "0" := "func" ]}
  = mkScoreResult 10 30 false None ∧
  score_quiz by_position questions 70
             {[ "0" := "func"; "1" := "true"; "2" := "0" ]}
  = mkScoreResult 30 30 true None ∧
  score_quiz by_position [] 0 ∅
  = mkScoreResult 0 0 false (Some DegenerateContent).
Proof. repeat split; vm_compute; reflexivity. Qed.

(** * Further properties of the handlers *)

(** ** Requests as sequences of checked writes *)

Lemma atomic_frame w w' :
  atomic w w' →
  lessons (db w') = lessons (db w) ∧
  quizzes (db w') = quizzes (db w) ∧
  achievements (db w') = achievements (db w).
Proof. destruct 1; done. Qed.

Lemma rtc_atomic_frame w w' :
  rtc atomic w w' →
  lessons (db w') = lessons (db w) ∧
  quizzes (db w') = quizzes (db w) ∧
  achievements (db w') = achievements (db w).
Proof.
  induction 1 as [|w w1 w2 H1 _ (IHl & IHq & IHa)]; [done|].
  apply atomic_frame in H1 as (Hl & Hq & Ha); repeat split; congruence.
Qed.

Lemma available_achievements_active user_id d a :
  a ∈ available_achievements user_id d →
  a ∈ achievements d ∧ a_is_active a = true.
Proof.
  unfold available_achievements; intros Ha.
  apply find_to_list_elem_of in Ha as [Ha [Hact _]]; done.
Qed.

Lemma for_each_award_atomic user_id now l w :
  (∀ a, a ∈ l → a ∈ achievements (db w) ∧ a_is_active a = true) →
  rtc atomic w
      (for_each (award user_id now (lessons_completed_by user_id (db w)))
                l w).2.
Proof.
  revert w; induction l as [|a l IH]; intros w Hl; simpl; [done|].
  destruct (Hl a ltac:(left)) as [Hin Hact].
  unfold bind.
  destruct (earned (a_criteria a) (lessons_completed_by user_id (db w)))
    eqn:He.
  - destruct (decide (Exists (achievement_key user_id (a_id a))
                             (user_achievements (db w)))) as [Hex|Hex].
    + rewrite award_conflict by done. done.
    + rewrite award_grant by done.
      etrans; [apply rtc_once, (atomic_grant user_id now a w); done|].
      apply (IH (granted user_id now a w)).
      intros a' Ha'; apply Hl; by right.
  - rewrite award_skip by done. apply IH. intros a' Ha'; apply Hl; by right.
Qed.

Lemma check_achievements_atomic user_id now w :
  rtc atomic w (check_achievements user_id now w).2.
Proof.
  unfold check_achievements, bind, read; simpl.
  apply for_each_award_atomic. intros a.
  apply available_achievements_active.
Qed.

Lemma update_one_progress_atomic user_id lesson_id now w :
  ∃ result w',
    update_one_progress user_id lesson_id now w = (Ok result, w') ∧
    atomic w w' ∧ journal w' = journal w ∧ users (db w') = users (db w).
Proof.
  unfold update_one_progress, bind, read; simpl.
  destruct (find_one _ _) eqn:E; simpl.
  - eexists _, _; split; [done|]. split; [|done].
    apply atomic_set_completed.
  - eexists _, _; split; [done|]. split; [|done].
    apply (atomic_upsert user_id lesson_id now).
    by apply (proj1 (find_one_None _ _)).
Qed.

Lemma complete_lesson_atomic lesson_id current_user now w :
  rtc atomic w (complete_lesson lesson_id current_user now w).2.
Proof.
  unfold complete_lesson.
  unfold bind at 1, read; simpl.
  destruct (find_one _ (lessons (db w))) as [lesson|] eqn:El; [|done].
  apply find_one_Some in El as [Hin Hid]; simpl in Hid.
  destruct (update_one_progress_atomic (u_id current_user) lesson_id now w)
    as (result & w1 & Hu & Hat & _).
  rewrite (bind_ok _ _ _ _ _ Hu).
  etrans; [apply rtc_once, Hat|].
  destruct (_ || _); unfold bind, ret; simpl; [|done].
  subst lesson_id.
  assert (lesson ∈ lessons (db w1)) as Hin1
    by (apply atomic_frame in Hat as (-> & _); done).
  etrans; [apply rtc_once,
             (atomic_lesson_credit (u_id current_user) lesson w1 Hin1)|].
  match goal with
  | |- context [check_achievements ?u ?n ?w2] =>
      pose proof (check_achievements_atomic u n w2) as Hc;
      destruct (check_achievements u n w2) as [[[]|e] w3]
  end; exact Hc.
Qed.

Lemma start_lesson_atomic lesson_id current_user now w :
  rtc atomic w (start_lesson lesson_id current_user now w).2.
Proof.
  unfold start_lesson, bind, read; simpl.
  destruct (find_one _ (lessons (db w))); [|done].
  destruct (find_one _ (lesson_progress (db w))) eqn:E; [done|].
  unfold insert_one_progress, bind, read; simpl.
  destruct (decide _); simpl; [done|].
  apply rtc_once, (atomic_start (u_id current_user) lesson_id now).
  by apply (proj1 (find_one_None _ _)).
Qed.

Lemma start_quiz_attempt_atomic quiz_id current_user uuid now w :
  rtc atomic w (start_quiz_attempt quiz_id current_user uuid now w).2.
Proof.
  unfold start_quiz_attempt, bind, read; simpl.
  destruct (find_one _ (quizzes (db w))) as [quiz|] eqn:E; [|done].
  apply find_one_Some in E as [Hin <-].
  apply rtc_once, (atomic_attempt uuid (u_id current_user) quiz now w Hin).
Qed.

Lemma handle_atomic r w : rtc atomic w (handle r w).
Proof.
  destruct r; simpl;
    auto using start_lesson_atomic, complete_lesson_atomic,
               start_quiz_attempt_atomic.
Qed.

Lemma serve_atomic rs w : rtc atomic w (serve rs w).
Proof.
  revert w; induction rs as [|r rs IH]; intros w; simpl; [done|].
  etrans; [apply handle_atomic|apply IH].
Qed.


(** ** Collections under update *)

Lemma filter_update_one_length {A} (P Q : A → Prop)
    `{!∀ x, Decision (P x), !∀ x, Decision (Q x)} (f : A → A) c :
  (∀ x, Q (f x) ↔ Q x) →
  length (filter Q (update_one P f c)) = length (filter Q c).
Proof.
  intros Hf; induction c as [|x c IH]; simpl; [done|].
  destruct (decide (P x)).
  - rewrite !filter_cons.
    destruct (decide (Q (f x))) as [H1|H1], (decide (Q x)) as [H2|H2];
      simpl; try done; exfalso; [apply H2, Hf, H1|apply H1, Hf, H2].
  - rewrite !filter_cons. destruct (decide (Q x)); simpl; by rewrite IH.
Qed.

Lemma filter_update_one_le {A} (P Q : A → Prop)
    `{!∀ x, Decision (P x), !∀ x, Decision (Q x)} (f : A → A) c :
  (∀ x, Q x → Q (f x)) →
  (length (filter Q c) ≤ length (filter Q (update_one P f c)))%nat.
Proof.
  intros Hf; induction c as [|x c IH]; simpl; [done|].
  destruct (decide (P x)).
  - rewrite !filter_cons.
    destruct (decide (Q x)) as [H2|H2]; simpl.
    + rewrite decide_True by auto. done.
    + destruct (decide (Q (f x))); simpl; lia.
  - rewrite !filter_cons. destruct (decide (Q x)); simpl; lia.
Qed.

Lemma filter_nil_not_Exists {A} (P : A → Prop) `{!∀ x, Decision (P x)} c :
  ¬ Exists P c → filter P c = [].
Proof.
  intros Hex. destruct (filter P c) as [|x l] eqn:E; [done|].
  destruct Hex; apply Exists_exists; exists x.
  assert (x ∈ filter P c) as Hin by (rewrite E; left).
  apply list_elem_of_filter in Hin; tauto.
Qed.

Lemma find_one_app_Some {A} (P : A → Prop) `{!∀ x, Decision (P x)} c c' x :
  find_one P c = Some x → find_one P (c ++ c') = Some x.
Proof.
  unfold find_one; rewrite filter_app.
  destruct (filter P c); [done|]. by simpl.
Qed.

Lemma find_one_app_None {A} (P : A → Prop) `{!∀ x, Decision (P x)} c c' :
  find_one P c = None → find_one P (c ++ c') = find_one P c'.
Proof.
  unfold find_one; rewrite filter_app, head_None. by intros ->.
Qed.

Lemma progress_of_set_completed u l u' l' now c :
  find_one (progress_key u l)
           (update_one (progress_key u' l') (set_completed now) c)
  = if decide (u' = u ∧ l' = l)
    then set_completed now <$> find_one (progress_key u l) c
    else find_one (progress_key u l) c.
Proof.
  unfold find_one; induction c as [|p c IH]; simpl.
  - by destruct (decide _).
  - destruct (decide (progress_key u' l' p)) as [[H1 H2]|Hn].
    + rewrite !filter_cons.
      destruct (decide (u' = u ∧ l' = l)) as [[-> ->]|Hd].
      * rewrite !decide_True by done. done.
      * rewrite !decide_False; [done| |];
          unfold progress_key; simpl; intros [? ?]; apply Hd; split;
          congruence.
    + rewrite !filter_cons.
      destruct (decide (progress_key u l p)) as [Hk|Hk]; simpl.
      * destruct (decide (u' = u ∧ l' = l)) as [[-> ->]|Hd]; done.
      * exact IH.
Qed.

Lemma balance_update_one user_id x n d :
  balance user_id
          (set_users (update_one (λ u, u_id u = x) (inc_points n)) d)
  = (λ b, b + (if decide (x = user_id) then n else 0))
      <$> balance user_id d.
Proof.
  unfold balance, find_one; simpl.
  induction (users d) as [|u us IH]; simpl; [done|].
  destruct (decide (u_id u = x)) as [Hx|Hx].
  - rewrite !filter_cons; simpl.
    destruct (decide (u_id u = user_id)) as [Hu|Hu]; simpl.
    + rewrite decide_True by congruence. done.
    + destruct (decide (x = user_id)); [congruence|].
      clear IH. destruct (head _); simpl; [by rewrite Z.add_0_r|done].
  - rewrite !filter_cons.
    destruct (decide (u_id u = user_id)) as [Hu|Hu]; simpl; [|exact IH].
    rewrite decide_False by congruence. by rewrite Z.add_0_r.
Qed.

Lemma for_each_award_frame user_id now lc l w :
  let w' := (for_each (award user_id now lc) l w).2 in
  lesson_progress (db w') = lesson_progress (db w) ∧
  quiz_attempts (db w') = quiz_attempts (db w).
Proof.
  revert w; induction l as [|a l IH]; intros w; simpl; [done|].
  unfold bind.
  destruct (award_cases user_id now lc a w) as [->|[->|[_ ->]]];
    [apply IH|done|].
  destruct (IH (granted user_id now a w)) as [-> ->]; done.
Qed.

Lemma check_achievements_frame user_id now w :
  let w' := (check_achievements user_id now w).2 in
  lesson_progress (db w') = lesson_progress (db w) ∧
  quiz_attempts (db w') = quiz_attempts (db w).
Proof.
  unfold check_achievements, bind, read; simpl. apply for_each_award_frame.
Qed.


(** ** Lesson progress *)


Lemma atomic_progress_unique w w' :
  atomic w w' → progress_unique (db w) → progress_unique (db w').
Proof.
  destruct 1 as [u l now w Hex|u l now w Hex|u l now w| | |];
    intros Hok u' l'; specialize (Hok u' l'); simpl; try done.
  - rewrite filter_app, length_app, filter_cons, filter_nil.
    destruct (decide _) as [[<- <-]|]; simpl; [|lia].
    rewrite (filter_nil_not_Exists _ _ Hex); simpl; lia.
  - rewrite filter_app, length_app, filter_cons, filter_nil.
    destruct (decide _) as [[<- <-]|]; simpl; [|lia].
    rewrite (filter_nil_not_Exists _ _ Hex); simpl; lia.
  - rewrite filter_update_one_length; [done|]. intros p; done.
Qed.

(** X2: the unique index on (learner, lesson) is kept: from a database
    in which every pair has at most one progress record, any sequence of
    requests leads to such a database.  The upsert of [complete_lesson]
    and the insert of [start_lesson] add a record only for a pair that has
    none. *)
Theorem progress_index_kept (rs : list Request) (w : World) :
  progress_unique (db w) → progress_unique (db (serve rs w)).
Proof.
  intros Hw. pose proof (serve_atomic rs w) as Hrtc.
  induction Hrtc; eauto using atomic_progress_unique.
Qed.

Lemma progress_index_kept_witness :
  progress_unique
    (db (serve [StartLesson "L1" alice 500; CompleteLesson "L1" alice 1000;
                CompleteLesson "L2" alice 2000; StartLesson "L2" alice 2500]
               (mkWorld db_first []))).
Proof.
  apply progress_index_kept. intros u l; simpl; lia.
Defined.

Lemma atomic_completed_count w w' user_id :
  atomic w w' →
  lessons_completed_by user_id (db w) ≤ lessons_completed_by user_id (db w').
Proof.
  unfold lessons_completed_by, count_documents.
  destruct 1 as [u l now w Hex|u l now w Hex|u l now w| | |]; simpl;
    try lia.
  - rewrite filter_app, length_app; lia.
  - rewrite filter_app, length_app; lia.
  - apply inj_le, filter_update_one_le. intros p [Hu Hc]; done.
Qed.

Lemma atomic_is_completed w w' user_id lesson_id :
  atomic w w' →
  is_completed user_id lesson_id (db w) →
  is_completed user_id lesson_id (db w').
Proof.
  unfold is_completed, progress_of.
  destruct 1 as [u l now w Hex|u l now w Hex|u l now w| | |]; simpl;
    try done; intros (p & Hp & Hc).
  - exists p; split; [by apply find_one_app_Some|done].
  - exists p; split; [by apply find_one_app_Some|done].
  - rewrite progress_of_set_completed, Hp.
    destruct (decide _); simpl; eauto.
Qed.

(** X3: completion is never undone.  Over any sequence of requests a
    pair whose progress record says completed keeps a record that says
    completed, and the number of completed lessons that
    [check_achievements] counts for a learner does not decrease. *)
Theorem completed_lessons_never_lost
    (rs : list Request) (w : World) (user_id lesson_id : string) :
  lessons_completed_by user_id (db w)
    ≤ lessons_completed_by user_id (db (serve rs w)) ∧
  (is_completed user_id lesson_id (db w) →
   is_completed user_id lesson_id (db (serve rs w))).
Proof.
  pose proof (serve_atomic rs w) as Hrtc.
  induction Hrtc as [|w w1 w2 H1 _ [IHc IHp]]; [split; [lia|done]|].
  split.
  - pose proof (atomic_completed_count _ _ user_id H1). lia.
  - intros Hc. eauto using atomic_is_completed.
Qed.

Lemma completed_lessons_never_lost_witness :
  let w := (complete_lesson "L1" alice 1000 (mkWorld db_first [])).2 in
  let rs := [StartLesson "L1" alice 2000; CompleteLesson "L2" alice 3000] in
  lessons_completed_by "u1" (db w)
    ≤ lessons_completed_by "u1" (db (serve rs w)) ∧
  is_completed "u1" "L1" (db (serve rs w)).
Proof.
  intros w rs.
  destruct (completed_lessons_never_lost rs w "u1" "L1") as [Hc Hp].
  split; [exact Hc|]. apply Hp. eexists; split; reflexivity.
Defined.


(** ** Completing a lesson *)

Lemma update_one_find_one_id {A} (P : A → Prop) `{!∀ x, Decision (P x)}
    (f : A → A) c x :
  find_one P c = Some x → f x = x → update_one P f c = c.
Proof.
  unfold find_one; induction c as [|y c IH]; simpl; [done|].
  rewrite filter_cons. destruct (decide (P y)); simpl.
  - intros [= ->] ->; done.
  - intros Hx Hf; by rewrite IH.
Qed.

Lemma update_one_progress_effect user_id lesson_id now w :
  ∃ result wp,
    update_one_progress user_id lesson_id now w = (Ok result, wp) ∧
    journal wp = journal w ∧ users (db wp) = users (db w) ∧
    lessons (db wp) = lessons (db w) ∧
    achievements (db wp) = achievements (db w) ∧
    user_achievements (db wp) = user_achievements (db w) ∧
    progress_of user_id lesson_id (db wp)
    = Some (match progress_of user_id lesson_id (db w) with
            | Some p => set_completed now p
            | None => upserted_record user_id lesson_id now
            end).
Proof.
  unfold update_one_progress, progress_of, bind, read; simpl.
  destruct (find_one _ (lesson_progress (db w))) as [p|] eqn:Ep; simpl;
    eexists _, _; (split; [reflexivity|]); simpl; repeat split.
  - rewrite progress_of_set_completed, decide_True, Ep by done. done.
  - rewrite (find_one_app_None _ _ _ Ep).
    unfold find_one; by rewrite filter_cons, decide_True.
Qed.

Lemma complete_lesson_found lesson_id current_user now w lesson result wp :
  find_one (λ l, l_id l = lesson_id) (lessons (db w)) = Some lesson →
  update_one_progress (u_id current_user) lesson_id now w = (Ok result, wp) →
  complete_lesson lesson_id current_user now w
  = if bool_decide (is_Some (upserted_id result))
       || bool_decide (0 < modified_count result)
    then match check_achievements (u_id current_user) now
                 (lesson_credited lesson (u_id current_user) wp) with
         | (Ok _, w2) => (Ok (mkAPIResponse true "Lesson completed"), w2)
         | (Raise e, w2) => (Raise e, w2)
         end
    else (Ok (mkAPIResponse true "Lesson completed"), wp).
Proof.
  intros Hfind Hupd.
  pose proof (find_one_Some _ _ _ Hfind) as [_ Hid]; simpl in Hid.
  unfold complete_lesson. unfold bind at 1, read; simpl. rewrite Hfind.
  rewrite (bind_ok _ _ _ _ _ Hupd).
  destruct (_ || _); [|done].
  unfold bind, update_one_points, record, write, ret; simpl.
  subst lesson_id. fold (lesson_credited lesson (u_id current_user) wp).
  destruct (check_achievements _ _ _) as [[[]|e] w2]; done.
Qed.

(** X4: completing an existing lesson always leaves the pair's progress
    record completed at the time of the call, also when the achievement
    pass then fails: a record that was there keeps its other fields (its
    [started_at]), and a pair without a record gets one that holds only
    the pair and the completion. *)
Theorem complete_lesson_records_completion
    (lesson_id : string) (current_user : User) (now : datetime) (w : World)
    (lesson : Lesson) :
  find_one (λ l, l_id l = lesson_id) (lessons (db w)) = Some lesson →
  progress_of (u_id current_user) lesson_id
              (db (complete_lesson lesson_id current_user now w).2)
  = Some (match progress_of (u_id current_user) lesson_id (db w) with
          | Some p => set_completed now p
          | None => upserted_record (u_id current_user) lesson_id now
          end).
Proof.
  intros Hfind.
  destruct (update_one_progress_effect (u_id current_user) lesson_id now w)
    as (result & wp & Hupd & _ & _ & _ & _ & _ & Hp).
  rewrite (complete_lesson_found _ _ _ _ _ _ _ Hfind Hupd).
  destruct (_ || _); [|exact Hp].
  pose proof (check_achievements_frame (u_id current_user) now
                (lesson_credited lesson (u_id current_user) wp)) as [Hf _].
  unfold progress_of in *.
  destruct (check_achievements _ _ _) as [[[]|e] w2]; simpl in *;
    rewrite Hf; exact Hp.
Qed.

Lemma complete_lesson_records_completion_witness :
  progress_of "u1" "L1"
    (db (complete_lesson "L1" alice 1000
           (start_lesson "L1" alice 500 (mkWorld db_many [])).2).2)
  = Some (mkLessonProgress "u1" "L1" (Some 500) (Some 1000) true (Some 0)
                           None).
Proof.
  rewrite (complete_lesson_records_completion "L1" alice 1000 _
             (lesson_n "L1" 10)); reflexivity.
Defined.

(** X5: what makes a repeated completion harmless is the clock, not the
    state of the record: when the pair's record is already completed at
    exactly the reading of this call, the update modifies nothing and the
    call succeeds without a credit, a pass or any change of the world. *)
Theorem complete_lesson_same_reading_changes_nothing
    (lesson_id : string) (current_user : User) (now : datetime) (w : World)
    (lesson : Lesson) (p : LessonProgress) :
  find_one (λ l, l_id l = lesson_id) (lessons (db w)) = Some lesson →
  progress_of (u_id current_user) lesson_id (db w) = Some p →
  lp_is_completed p = true →
  lp_completed_at p = Some now →
  complete_lesson lesson_id current_user now w
  = (Ok (mkAPIResponse true "Lesson completed"), w).
Proof.
  intros Hfind Hp Hc Hat.
  assert (set_completed now p = p) as Hsame
    by (destruct p; simpl in *; subst; done).
  assert (update_one_progress (u_id current_user) lesson_id now w
          = (Ok (mkUpdateResult 1 0 None), w)) as Hupd.
  { unfold update_one_progress, bind, read; simpl.
    unfold progress_of in Hp; rewrite Hp; simpl.
    rewrite decide_True by done. unfold write, ret; simpl; f_equal.
    unfold set_lesson_progress.
    rewrite (update_one_find_one_id _ _ _ _ Hp Hsame).
    destruct w as [[] j]; done. }
  rewrite (complete_lesson_found _ _ _ _ _ _ _ Hfind Hupd). done.
Qed.

Lemma complete_lesson_same_reading_changes_nothing_witness :
  let w := (complete_lesson "L1" alice 1000 (mkWorld db_first [])).2 in
  complete_lesson "L1" alice 1000 w
  = (Ok (mkAPIResponse true "Lesson completed"), w).
Proof.
  intros w.
  apply (complete_lesson_same_reading_changes_nothing
           "L1" alice 1000 w (lesson_n "L1" 10)
           (upserted_record "u1" "L1" 1000)); reflexivity.
Defined.

Lemma for_each_award_outcome user_id now lc l w :
  (for_each (award user_id now lc) l w).1 = Ok tt ∨
  (for_each (award user_id now lc) l w).1 = Raise DuplicateKeyError.
Proof.
  revert w; induction l as [|a l IH]; intros w; simpl; [by left|].
  unfold bind.
  destruct (award_cases user_id now lc a w) as [->|[->|[_ ->]]];
    [apply IH|by right|apply IH].
Qed.

(** X6: the only ways [complete_lesson] ends.  For a lesson id that no
    stored lesson has it raises the 404 and leaves the world as it was;
    for any other it either returns the success response or lets a
    [DuplicateKeyError] of the achievement pass through. *)
Theorem complete_lesson_outcomes
    (lesson_id : string) (current_user : User) (now : datetime) (w : World) :
  let result := complete_lesson lesson_id current_user now w in
  if decide (Exists (λ l, l_id l = lesson_id) (lessons (db w)))
  then result.1 = Ok (mkAPIResponse true "Lesson completed") ∨
       result.1 = Raise DuplicateKeyError
  else result = (Raise (HTTPException 404 "Lesson not found"), w).
Proof.
  simpl. destruct (decide _) as [Hex|Hex].
  - destruct (find_one (λ l, l_id l = lesson_id) (lessons (db w)))
      as [lesson|] eqn:Hfind;
      [|by apply (proj1 (find_one_None _ _)) in Hfind].
    destruct (update_one_progress_effect (u_id current_user) lesson_id now w)
      as (result & wp & Hupd & _).
    rewrite (complete_lesson_found _ _ _ _ _ _ _ Hfind Hupd).
    destruct (_ || _); [|by left].
    unfold check_achievements, bind, read; simpl.
    match goal with
    | |- context [for_each (award ?u ?n ?lc) ?l ?w1] =>
        destruct (for_each_award_outcome u n lc l w1) as [Ho|Ho];
        destruct (for_each (award u n lc) l w1) as [[[]|e] w2]
    end; simpl in *; try done; [by left|right; congruence].
  - apply (proj2 (find_one_None _ _)) in Hex.
    unfold complete_lesson, bind, read; simpl. by rewrite Hex.
Qed.


(** ** The achievement pass on a well-formed database *)

Lemma check_achievements_all_granted user_id now w :
  NoDup (a_id <$> achievements (db w)) →
  (length (held_by user_id (db w)) ≤ 100)%nat →
  check_achievements user_id now w
  = (Ok tt,
     all_granted user_id now
       (earned_among (lessons_completed_by user_id (db w))
                     (available_achievements user_id (db w)))
       w).
Proof.
  intros Hnd Hlen.
  destruct (available_achievements_candidates user_id (db w) Hnd Hlen)
    as [Hnd' Hnew].
  unfold check_achievements, bind, read; simpl.
  by apply for_each_award_all_granted.
Qed.

(** X7: when achievement identifiers are unique and the learner holds
    at most 100 achievements, [check_achievements] cannot fail.  It
    returns normally, and the achievements it has added to those the
    learner holds are the available ones whose test succeeds on the
    learner's count of completed lessons, in the order of the catalogue;
    the balance has gone up by the sum of their rewards and the journal
    has one credit for each. *)
Theorem check_achievements_grants_what_is_earned
    (user_id : string) (now : datetime) (w : World) (b : Z) :
  NoDup (a_id <$> achievements (db w)) →
  (length (held_by user_id (db w)) ≤ 100)%nat →
  balance user_id (db w) = Some b →
  let new := earned_among (lessons_completed_by user_id (db w))
                          (available_achievements user_id (db w)) in
  let result := check_achievements user_id now w in
  result.1 = Ok tt ∧
  earned_ids user_id (db result.2)
  = earned_ids user_id (db w) ++ (a_id <$> new) ∧
  balance user_id (db result.2) = Some (b + total_reward new) ∧
  journal result.2 = journal w ++ (credit_of user_id <$> new).
Proof.
  intros Hnd Hlen Hb new result. subst result.
  rewrite check_achievements_all_granted by done. fold new. cbn [fst snd].
  split; [done|]. split; [apply earned_ids_all_granted|]. split; [|done].
  unfold all_granted; cbn [db].
  rewrite balance_update_one, decide_True by done.
  change (balance user_id (set_user_achievements _ (db w)))
    with (balance user_id (db w)).
  by rewrite Hb.
Qed.

Lemma check_achievements_grants_what_is_earned_witness :
  let w := (update_one_progress "u1" "L1" 1000 (mkWorld db_first [])).2 in
  let result := check_achievements "u1" 1000 w in
  result.1 = Ok tt ∧
  earned_ids "u1" (db result.2) = ["first_lesson"] ∧
  balance "u1" (db result.2) = Some 50 ∧
  journal result.2 = [AchievementPoints "u1" "first_lesson" 50].
Proof.
  intros w.
  apply (check_achievements_grants_what_is_earned "u1" 1000 w 0).
  - apply (bool_decide_unpack _); vm_compute; exact I.
  - simpl; lia.
  - reflexivity.
Defined.

(** X8: a pass that follows a pass grants nothing.  In a catalogue of
    at most 100 achievements with unique identifiers, for a learner who
    holds at most 100 achievements after the first pass, a second
    [check_achievements] returns normally and leaves the world of the
    first. *)
Theorem check_achievements_twice
    (user_id : string) (now1 now2 : datetime) (w : World) :
  let w1 := (check_achievements user_id now1 w).2 in
  NoDup (a_id <$> achievements (db w)) →
  (length (achievements (db w)) ≤ 100)%nat →
  (length (held_by user_id (db w1)) ≤ 100)%nat →
  check_achievements user_id now2 w1 = (Ok tt, w1).
Proof.
  intros w1 Hnd Hcat Hheld1.
  assert (length (held_by user_id (db w)) ≤ 100)%nat as Hheld.
  { pose proof (check_achievements_atomic user_id now1 w) as Hrtc.
    fold w1 in Hrtc. revert Hheld1. clear -Hrtc.
    induction Hrtc as [|w0 w2 w3 H1 _ IH]; [done|]. intros H3.
    specialize (IH H3). revert IH. clear -H1. unfold held_by.
    destruct H1; simpl; try done.
    rewrite filter_app, length_app; lia. }
  pose proof (check_achievements_all_granted user_id now1 w Hnd Hheld)
    as H1.
  set (g := earned_among (lessons_completed_by user_id (db w))
                         (available_achievements user_id (db w))) in *.
  assert (w1 = all_granted user_id now1 g w) as Hw1
    by (unfold w1; rewrite H1; done).
  clearbody w1; subst w1.
  rewrite check_achievements_all_granted; [|done|done].
  assert (earned_among
            (lessons_completed_by user_id (db (all_granted user_id now1 g w)))
            (available_achievements user_id
                                    (db (all_granted user_id now1 g w)))
          = []) as ->; [|by rewrite all_granted_nil].
  apply filter_nil_not_Exists. rewrite Exists_exists.
  intros (a & Ha & He).
  change (earned (a_criteria a) (lessons_completed_by user_id (db w)) = true)
    in He.
  apply find_to_list_elem_of in Ha as [Hin [Hact Hnot]].
  change (a ∈ achievements (db w)) in Hin.
  unfold find_to_list in Hnot. rewrite take_ge in Hnot by done.
  change (a_id a ∉ earned_ids user_id (db (all_granted user_id now1 g w)))
    in Hnot.
  rewrite earned_ids_all_granted in Hnot.
  apply Hnot, elem_of_app; right.
  apply list_elem_of_fmap; exists a; split; [done|].
  apply list_elem_of_filter; split; [exact He|].
  unfold available_achievements, find_to_list.
  rewrite (take_ge (filter _ (user_achievements (db w)))) by done.
  rewrite take_ge by (etrans; [apply length_filter|done]).
  apply list_elem_of_filter; split; [|done]. split; [done|].
  intros Hheld0. apply Hnot, elem_of_app; by left.
Qed.

Lemma check_achievements_twice_witness :
  let w := (update_one_progress "u1" "L1" 1000 (mkWorld db_first [])).2 in
  check_achievements "u1" 2000 (check_achievements "u1" 1000 w).2
  = (Ok tt, (check_achievements "u1" 1000 w).2).
Proof.
  intros w. apply (check_achievements_twice "u1" 1000 2000 w).
  - apply (bool_decide_unpack _); vm_compute; exact I.
  - simpl; lia.
  - apply (bool_decide_unpack _); vm_compute; exact I.
Defined.




(** ** Invariants of request sequences *)

Lemma justified_mono d d' ua :
  achievements d' = achievements d →
  (∀ u, lessons_completed_by u d ≤ lessons_completed_by u d') →
  justified d ua → justified d' ua.
Proof.
  intros Ha Hc (a & t & Hin & Hid & Hact & Ht & Hle).
  exists a, t. rewrite Ha. repeat split; try done.
  specialize (Hc (ua_user_id ua)); lia.
Qed.

Lemma atomic_grants_justified w w' :
  atomic w w' →
  ∃ new, user_achievements (db w') = user_achievements (db w) ++ new ∧
         Forall (justified (db w')) new.
Proof.
  destruct 1 as [u l now w Hex|u l now w Hex|u l now w| | |
                 u now a w Hin Hact He Hex];
    try (exists []; split; [by rewrite app_nil_r|constructor]).
  exists [mkUserAchievement u (a_id a) now 1]; split; [done|].
  constructor; [|constructor].
  apply earned_true in He as (t & Ht & Hle).
  exists a, t; repeat split; done.
Qed.

Lemma rtc_atomic_grants_justified w w' :
  rtc atomic w w' →
  ∃ new, user_achievements (db w') = user_achievements (db w) ++ new ∧
         Forall (justified (db w')) new.
Proof.
  induction 1 as [w|w w1 w2 H1 H2 (new2 & E2 & J2)].
  - exists []; split; [by rewrite app_nil_r|constructor].
  - destruct (atomic_grants_justified _ _ H1) as (new1 & E1 & J1).
    exists (new1 ++ new2); split; [by rewrite E2, E1, app_assoc|].
    apply Forall_app; split; [|done].
    eapply Forall_impl; [exact J1|]. intros ua.
    apply justified_mono.
    + by apply rtc_atomic_frame in H2 as (_ & _ & ->).
    + intros u. clear -H2. induction H2 as [|x y z Hxy _ IH]; [lia|].
      pose proof (atomic_completed_count _ _ u Hxy); lia.
Qed.

(** X10: no achievement is held unearned.  Over any sequence of
    requests the records of held achievements are only added to, and each
    record added belongs to a stored, active achievement whose descriptor
    lists [lessons_completed] with a threshold that its holder's completed
    lessons reach. *)
Theorem every_grant_is_earned (rs : list Request) (w : World) :
  ∃ new,
    user_achievements (db (serve rs w)) = user_achievements (db w) ++ new ∧
    Forall (justified (db (serve rs w))) new.
Proof.
  destruct (rtc_atomic_grants_justified _ _ (serve_atomic rs w))
    as (new & E & J).
  exists new; split; [exact E|exact J].
Qed.

Lemma credited_app user_id j1 j2 :
  credited user_id (j1 ++ j2) = credited user_id j1 + credited user_id j2.
Proof.
  unfold credited; induction j1 as [|c j1 IH]; simpl; [done|].
  rewrite IH; lia.
Qed.

Lemma atomic_balance w w' user_id :
  atomic w w' →
  balance user_id (db w')
  = (λ b, b + (credited user_id (journal w') - credited user_id (journal w)))
      <$> balance user_id (db w).
Proof.
  assert (∀ o : option Z, o = (λ b, b + 0) <$> o) as Hid
    by (intros [b|]; simpl; [by rewrite Z.add_0_r|done]).
  destruct 1 as [u l now w Hex|u l now w Hex|u l now w| |u lesson w Hin|
                 u now a w Hin Hact He Hex]; simpl;
    try (rewrite Z.sub_diag; apply Hid).
  - rewrite balance_update_one, credited_app; simpl.
    destruct (balance user_id (db w)); simpl; [|done].
    f_equal; destruct (decide _); lia.
  - rewrite balance_update_one, credited_app; simpl.
    change (balance user_id (set_user_achievements _ (db w)))
      with (balance user_id (db w)).
    destruct (balance user_id (db w)); simpl; [|done].
    f_equal; destruct (decide _); lia.
Qed.

(** X11: the balance of a learner is accounted for by the journal.  Over
    any sequence of requests the balance changes by exactly the sum of the
    lesson and achievement credits issued to the learner; a learner who is
    not stored stays without a balance. *)
Theorem balance_is_sum_of_credits
    (rs : list Request) (w : World) (user_id : string) :
  balance user_id (db (serve rs w))
  = (λ b, b + (credited user_id (journal (serve rs w))
               - credited user_id (journal w)))
      <$> balance user_id (db w).
Proof.
  pose proof (serve_atomic rs w) as Hrtc.
  revert Hrtc; generalize (serve rs w); intros w' Hrtc.
  induction Hrtc as [w|w w1 w2 H1 _ IH].
  - rewrite Z.sub_diag.
    destruct (balance user_id (db w)); simpl; [by rewrite Z.add_0_r|done].
  - rewrite IH, (atomic_balance _ _ user_id H1).
    destruct (balance user_id (db w)); simpl; [f_equal; lia|done].
Qed.

Lemma atomic_attempts w w' :
  atomic w w' →
  ∃ new, quiz_attempts (db w') = quiz_attempts (db w) ++ new ∧
         Forall (λ a, qa_is_completed a = false ∧ qa_score a = 0 ∧
                      qa_answers a = ∅ ∧ qa_completed_at a = None) new.
Proof.
  destruct 1; try (exists []; split; [by rewrite app_nil_r|constructor]).
  eexists [_]; split; [done|]. constructor; [done|constructor].
Qed.

(** X12: attempts are opened and never closed.  Over any sequence of
    requests the attempts collection only grows at its end, every attempt
    added is uncompleted, unanswered and scored 0, and so the number of
    completed quizzes that [check_achievements] counts for a learner
    stays what it was. *)
Theorem attempts_are_never_completed
    (rs : list Request) (w : World) (user_id : string) :
  (∃ new,
     quiz_attempts (db (serve rs w)) = quiz_attempts (db w) ++ new ∧
     Forall (λ a, qa_is_completed a = false ∧ qa_score a = 0 ∧
                  qa_answers a = ∅ ∧ qa_completed_at a = None) new) ∧
  count_documents (attempt_completed_by user_id)
                  (quiz_attempts (db (serve rs w)))
  = count_documents (attempt_completed_by user_id) (quiz_attempts (db w)).
Proof.
  assert (∃ new,
     quiz_attempts (db (serve rs w)) = quiz_attempts (db w) ++ new ∧
     Forall (λ a, qa_is_completed a = false ∧ qa_score a = 0 ∧
                  qa_answers a = ∅ ∧ qa_completed_at a = None) new)
    as (new & E & F).
  { pose proof (serve_atomic rs w) as Hrtc.
    induction Hrtc as [|w w1 w2 H1 _ (new2 & E2 & F2)].
    - exists []; split; [by rewrite app_nil_r|constructor].
    - destruct (atomic_attempts _ _ H1) as (new1 & E1 & F1).
      exists (new1 ++ new2); split; [by rewrite E2, E1, app_assoc|].
      by apply Forall_app. }
  split; [eauto|].
  unfold count_documents; rewrite E, filter_app, length_app.
  rewrite (filter_nil_not_Exists _ new); [simpl; lia|].
  rewrite Exists_exists; intros (a & Ha & _ & Hc).
  rewrite Forall_forall in F. destruct (F a Ha) as [Hf _]. congruence.
Qed.


(** ** Default achievements ([init_default_achievements]) *)

Lemma ensure_achievement_present a w :
  Exists (λ x, a_id x = a_id a) (achievements (db w)) →
  ensure_achievement a w = (Ok tt, w).
Proof.
  intros Hex. unfold ensure_achievement, bind, read; simpl.
  destruct (find_one _ _) eqn:E; [done|].
  by apply (proj1 (find_one_None _ _)) in E.
Qed.

Lemma ensure_achievement_absent a w :
  ¬ Exists (λ x, a_id x = a_id a) (achievements (db w)) →
  ensure_achievement a w
  = (Ok tt, mkWorld (set_achievements (λ c, c ++ [a]) (db w)) (journal w)).
Proof.
  intros Hex. unfold ensure_achievement, bind, read; simpl.
  by rewrite (proj2 (find_one_None _ _) Hex).
Qed.

Lemma Exists_id_elem_of (l : list Achievement) x :
  Exists (λ y, a_id y = x) l ↔ x ∈ a_id <$> l.
Proof.
  rewrite Exists_exists, list_elem_of_fmap. split.
  - intros (y & Hy & <-); eauto.
  - intros (y & -> & Hy); eauto.
Qed.

Lemma for_each_ensure_present l w :
  (∀ a, a ∈ l → a_id a ∈ a_id <$> achievements (db w)) →
  for_each ensure_achievement l w = (Ok tt, w).
Proof.
  induction l as [|a l IH]; intros Hl; simpl; [done|].
  unfold bind. rewrite ensure_achievement_present.
  - apply IH. intros a' Ha'; apply Hl; by right.
  - apply Exists_id_elem_of, Hl; left.
Qed.

Lemma for_each_ensure_effect l w :
  ∃ new,
    for_each ensure_achievement l w
    = (Ok tt, mkWorld (set_achievements (λ c, c ++ new) (db w)) (journal w)) ∧
    new `sublist_of` l ∧
    (∀ a, a ∈ l → a_id a ∈ a_id <$> (achievements (db w) ++ new)) ∧
    (NoDup (a_id <$> achievements (db w)) →
     NoDup (a_id <$> (achievements (db w) ++ new))).
Proof.
  revert w; induction l as [|a l IH]; intros w; simpl.
  - exists []; rewrite app_nil_r. repeat split; try done.
    + destruct w as [[] j]; unfold ret, set_achievements; simpl.
      by rewrite app_nil_r.
    + intros a Ha; by apply not_elem_of_nil in Ha.
  - unfold bind.
    destruct (decide (Exists (λ x, a_id x = a_id a) (achievements (db w))))
      as [Hex|Hex].
    + rewrite ensure_achievement_present by done.
      destruct (IH w) as (new & -> & Hsub & Hall & Hnd).
      exists new; repeat split; [by apply sublist_cons| |done].
      intros a' [->|Ha']%elem_of_cons; [|by apply Hall].
      rewrite fmap_app; apply elem_of_app; left.
      by apply Exists_id_elem_of.
    + rewrite ensure_achievement_absent by done.
      destruct (IH (mkWorld (set_achievements (λ c, c ++ [a]) (db w))
                            (journal w)))
        as (new & -> & Hsub & Hall & Hnd); simpl in *.
      exists (a :: new); repeat split.
      * unfold set_achievements; simpl. by rewrite <-app_assoc.
      * by apply sublist_skip.
      * intros a' [->|Ha']%elem_of_cons.
        -- rewrite fmap_app, fmap_cons. apply elem_of_app; right; left.
        -- specialize (Hall a' Ha'). by rewrite <-app_assoc in Hall.
      * intros Hnd0. rewrite <-app_assoc in Hnd; apply Hnd.
        rewrite fmap_app; simpl. apply NoDup_app; repeat split; [done| |].
        -- intros x Hx [->|[]%not_elem_of_nil]%elem_of_cons.
           by apply Hex, Exists_id_elem_of.
        -- apply NoDup_singleton.
Qed.

(** X13: initialising the default achievements is idempotent and cannot
    fail: it returns normally from every database, and a second run
    changes nothing. *)
Theorem init_default_achievements_idempotent (w : World) :
  (init_default_achievements w).1 = Ok tt ∧
  init_default_achievements (init_default_achievements w).2
  = (Ok tt, (init_default_achievements w).2).
Proof.
  unfold init_default_achievements.
  destruct (for_each_ensure_effect default_achievements w)
    as (new & -> & _ & Hall & _).
  split; [done|]. cbn [snd]. by apply for_each_ensure_present.
Qed.

(** X14: the initialisation only adds what is missing.  It changes no
    collection but the achievements, leaves every stored achievement as it
    is (also one that has the id of a default), appends defaults only,
    ends with every default id present, and keeps achievement ids
    distinct when they were. *)
Theorem init_default_achievements_adds_missing (w : World) :
  NoDup (a_id <$> achievements (db w)) →
  let w' := (init_default_achievements w).2 in
  ∃ new,
    w' = mkWorld (set_achievements (λ c, c ++ new) (db w)) (journal w) ∧
    new `sublist_of` default_achievements ∧
    (∀ a, a ∈ default_achievements →
          a_id a ∈ a_id <$> achievements (db w')) ∧
    NoDup (a_id <$> achievements (db w')).
Proof.
  intros Hnd w'. subst w'. unfold init_default_achievements.
  destruct (for_each_ensure_effect default_achievements w)
    as (new & -> & Hsub & Hall & Hkeep).
  exists new; repeat split; [done|done|by apply Hkeep].
Qed.

Lemma init_default_achievements_adds_missing_witness :
  ∃ new,
    (init_default_achievements (mkWorld db_five [])).2
    = mkWorld (set_achievements (λ c, c ++ new) db_five) [] ∧
    new `sublist_of` default_achievements ∧
    (∀ a, a ∈ default_achievements →
          a_id a ∈ a_id <$> achievements
                     (db (init_default_achievements (mkWorld db_five [])).2)) ∧
    NoDup (a_id <$> achievements
             (db (init_default_achievements (mkWorld db_five [])).2)).
Proof.
  apply (init_default_achievements_adds_missing (mkWorld db_five [])).
  apply (bool_decide_unpack _); vm_compute; exact I.
Defined.

(** X15: of the five default achievements only the first can be
    obtained.  On a database initialised from an empty catalogue, with no
    achievement held, whatever requests are served, the achievements a
    learner holds are at most [first_lesson]: the other four are defined
    on metrics that the pass never evaluates. *)
Theorem default_achievements_only_first_lesson
    (d : DB) (rs : list Request) (user_id achievement_id : string) :
  achievements d = [] →
  user_achievements d = [] →
  let w := serve rs (init_default_achievements (mkWorld d [])).2 in
  achievement_id ∈ earned_ids user_id (db w) →
  achievement_id = "first_lesson".
Proof.
  intros Ha Hu w Hin.
  set (w0 := (init_default_achievements (mkWorld d [])).2) in *.
  assert (achievements (db w0) = default_achievements ∧
          user_achievements (db w0) = []) as [Ha0 Hu0].
  { destruct d as [us ls qs lp qa ach ua]; simpl in Ha, Hu; subst ach ua.
    split; vm_compute; reflexivity. }
  pose proof (serve_atomic rs w0) as Hrtc. fold w in Hrtc.
  destruct (rtc_atomic_grants_justified _ _ Hrtc) as (new & E & J).
  apply rtc_atomic_frame in Hrtc as (_ & _ & Hcat).
  unfold earned_ids in Hin. rewrite E, Hu0 in Hin; simpl in Hin.
  apply list_elem_of_fmap in Hin as (ua & -> & Hua).
  apply list_elem_of_filter in Hua as [_ Hua].
  rewrite Forall_forall in J.
  destruct (J ua Hua) as (a & t & Hcatin & <- & _ & Ht & _).
  rewrite Hcat, Ha0 in Hcatin. unfold default_achievements in Hcatin.
  repeat (apply elem_of_cons in Hcatin as [->|Hcatin]); try done;
    try (vm_compute in Ht; discriminate).
  by apply not_elem_of_nil in Hcatin.
Qed.

Lemma default_achievements_only_first_lesson_witness :
  let d := mkDB [alice] [lesson_n "L1" 10; lesson_n "L2" 10] [] [] [] [] [] in
  let w := serve [CompleteLesson "L1" alice 1000;
                  CompleteLesson "L2" alice 2000]
                 (init_default_achievements (mkWorld d [])).2 in
  earned_ids "u1" (db w) = ["first_lesson"] ∧
  ∀ x, x ∈ earned_ids "u1" (db w) → x = "first_lesson".
Proof.
  intros d w. split; [vm_compute; reflexivity|]. intros x.
  apply (default_achievements_only_first_lesson d
           [CompleteLesson "L1" alice 1000; CompleteLesson "L2" alice 2000]
           "u1" x); reflexivity.
Defined.


(** ** Quizzes ([create_quiz], [get_lesson_quizzes]) *)

(** X16: a quiz created through the API carries the sum of its
    questions' points, and that sum is what an attempt on it is measured
    against.  A teacher or admin who creates a quiz under an id that no
    stored quiz has gets back the stored quiz, whose [max_points] is the
    sum of the points of its questions, and an attempt then started on
    that id has this sum as its [max_score]; a student is refused with
    the 403 and nothing changes. *)
Theorem create_quiz_sets_max_points
    (quiz_data : QuizCreate) (current_user : User) (uuid : string)
    (learner : User) (attempt_id : string) (now : datetime) (w : World) :
  ¬ Exists (λ q, qz_id q = uuid) (quizzes (db w)) →
  let created := create_quiz quiz_data current_user uuid w in
  if is_staff current_user then
    ∃ quiz,
      created.1 = Ok quiz ∧
      quizzes (db created.2) = quizzes (db w) ++ [quiz] ∧
      qz_id quiz = uuid ∧
      qz_questions quiz = qc_questions quiz_data ∧
      qz_max_points quiz = total_points (qc_questions quiz_data) ∧
      (start_quiz_attempt uuid learner attempt_id now created.2).1
      = Ok (new_attempt attempt_id (u_id learner) uuid
                        (total_points (qc_questions quiz_data)) now)
  else
    created
    = (Raise (HTTPException 403
                "Only teachers and admins can create quizzes"), w).
Proof.
  intros Hfresh; simpl.
  unfold create_quiz. destruct (is_staff current_user); simpl; [|done].
  eexists; repeat split.
  unfold start_quiz_attempt, bind, read; simpl.
  rewrite (find_one_app_None _ _ _ (proj2 (find_one_None _ _) Hfresh)).
  unfold find_one; rewrite filter_cons, decide_True by done. done.
Qed.

Lemma create_quiz_sets_max_points_witness :
  ∃ quiz,
    (create_quiz (mkQuizCreate "Types" "L1" (qz_questions quiz_go) None 70)
                 (mkUser "t1" "tea@example.org" TEACHER true 0 1 0) "Q2"
                 (mkWorld db_quiz [])).1 = Ok quiz ∧
    qz_max_points quiz = 15 ∧
    (start_quiz_attempt "Q2" alice "id-1" 1000
       (create_quiz (mkQuizCreate "Types" "L1" (qz_questions quiz_go) None 70)
                    (mkUser "t1" "tea@example.org" TEACHER true 0 1 0) "Q2"
                    (mkWorld db_quiz [])).2).1
    = Ok (new_attempt "id-1" "u1" "Q2" 15 1000).
Proof.
  destruct (create_quiz_sets_max_points
              (mkQuizCreate "Types" "L1" (qz_questions quiz_go) None 70)
              (mkUser "t1" "tea@example.org" TEACHER true 0 1 0) "Q2"
              alice "id-1" 1000 (mkWorld db_quiz []))
    as (quiz & Hq & _ & _ & _ & Hmax & Hatt).
  - apply (bool_decide_unpack _); vm_compute; exact I.
  - exists quiz; split; [exact Hq|]. split; [exact Hmax|exact Hatt].
Defined.

(** X17: the correct answers of a quiz are readable by any user.  For a
    stored, active quiz of a lesson that has at most 100 active quizzes,
    [get_lesson_quizzes] returns the quiz as stored, questions and correct
    answers included, to every authenticated user, also after that user
    has started an attempt on it. *)
Theorem get_lesson_quizzes_returns_answers
    (quiz : Quiz) (current_user : User) (uuid : string) (now : datetime)
    (w : World) :
  quiz ∈ quizzes (db w) →
  qz_is_active quiz = true →
  (length (filter (active_quiz_of (qz_lesson_id quiz)) (quizzes (db w)))
   ≤ 100)%nat →
  let w' := (start_quiz_attempt (qz_id quiz) current_user uuid now w).2 in
  ∃ found,
    get_lesson_quizzes (qz_lesson_id quiz) current_user w' = (Ok found, w') ∧
    found `sublist_of` quizzes (db w) ∧
    quiz ∈ found.
Proof.
  intros Hin Hact Hlen w'.
  assert (quizzes (db w') = quizzes (db w)) as Hq.
  { unfold w', start_quiz_attempt, bind, read; simpl.
    destruct (find_one _ _); done. }
  unfold get_lesson_quizzes, read; rewrite Hq.
  eexists; split; [reflexivity|]. unfold find_to_list; split.
  - etrans; [apply sublist_take|apply sublist_filter].
  - rewrite take_ge by done. apply list_elem_of_filter; done.
Qed.

Lemma get_lesson_quizzes_returns_answers_witness :
  ∃ found,
    get_lesson_quizzes "L1" alice
      (start_quiz_attempt "Q1" alice "id-1" 1000 (mkWorld db_quiz [])).2
    = (Ok found,
       (start_quiz_attempt "Q1" alice "id-1" 1000 (mkWorld db_quiz [])).2) ∧
    found `sublist_of` [quiz_go] ∧
    quiz_go ∈ found.
Proof.
  apply (get_lesson_quizzes_returns_answers quiz_go alice "id-1" 1000
           (mkWorld db_quiz [])).
  - left.
  - reflexivity.
  - simpl; lia.
Defined.


(** ** Lessons ([create_lesson], [get_lessons]) *)

#[local] Instance by_order_index_trans : Transitive by_order_index.
Proof. unfold by_order_index; intros x y z; lia. Qed.

#[local] Instance by_order_index_total : Total by_order_index.
Proof. unfold by_order_index; intros x y; lia. Qed.

Lemma get_lessons_found_listed
    (difficulty : option DifficultyLevel) (current_user : User) (w : World) :
  ∃ found,
    get_lessons difficulty current_user w = (Ok found, w) ∧
    Forall (λ l, l ∈ lessons (db w) ∧ listed difficulty l) found.
Proof.
  unfold get_lessons, read. eexists; split; [reflexivity|].
  apply Forall_forall; intros l Hl.
  apply subseteq_take in Hl.
  rewrite merge_sort_Permutation in Hl.
  apply list_elem_of_filter in Hl; tauto.
Qed.

(** X18: what [get_lessons] lists.  The call changes nothing and returns
    at most 100 stored lessons, each published and of the difficulty asked
    for when one is given, in non-decreasing [order_index]; it returns all
    the lessons that qualify, or exactly 100 of them. *)
Theorem get_lessons_lists_published_in_order
    (difficulty : option DifficultyLevel) (current_user : User) (w : World) :
  ∃ found,
    get_lessons difficulty current_user w = (Ok found, w) ∧
    (length found ≤ 100)%nat ∧
    Forall (λ l, l ∈ lessons (db w) ∧ listed difficulty l) found ∧
    StronglySorted by_order_index found ∧
    (found ≡ₚ filter (listed difficulty) (lessons (db w)) ∨
     length found = 100%nat).
Proof.
  unfold get_lessons, read.
  set (qualifying := filter (listed difficulty) (lessons (db w))).
  eexists; split; [reflexivity|]. repeat split.
  - rewrite length_take; lia.
  - apply Forall_forall; intros l Hl.
    apply subseteq_take in Hl.
    rewrite merge_sort_Permutation in Hl.
    apply list_elem_of_filter in Hl; tauto.
  - pose proof (StronglySorted_merge_sort by_order_index qualifying) as Hs.
    rewrite <-(take_drop 100 (merge_sort by_order_index qualifying)) in Hs.
    by apply StronglySorted_app_1_l in Hs.
  - destruct (decide (length qualifying ≤ 100)%nat) as [Hlen|Hlen].
    + left. rewrite take_ge; [apply merge_sort_Permutation|].
      by rewrite merge_sort_Permutation.
    + right. rewrite length_take, merge_sort_Permutation. lia.
Qed.

(** X19: a lesson created through the API is worth 10 points and is
    not listed.  A teacher or admin who creates a lesson under an id that
    no stored lesson has gets back the stored lesson; it keeps the rewards
    of the catalogue non-negative, [complete_lesson] and [start_lesson]
    find it under its id, and [get_lessons] does not return it, neither at
    once nor after any sequence of requests, since it is stored
    unpublished; a student is refused with the 403 and nothing changes. *)
Theorem created_lesson_is_unlisted
    (lesson_data : LessonCreate) (current_user : User) (uuid : string)
    (w : World) (rs : list Request)
    (difficulty : option DifficultyLevel) (reader : User) :
  ¬ Exists (λ l, l_id l = uuid) (lessons (db w)) →
  let created := create_lesson lesson_data current_user uuid w in
  if is_staff current_user then
    ∃ lesson,
      created.1 = Ok lesson ∧
      l_points_reward lesson = 10 ∧
      find_one (λ l, l_id l = uuid) (lessons (db created.2)) = Some lesson ∧
      (rewards_nonneg (db w) → rewards_nonneg (db created.2)) ∧
      ∀ found,
        (get_lessons difficulty reader (serve rs created.2)).1 = Ok found →
        lesson ∉ found
  else
    created
    = (Raise (HTTPException 403
                "Only teachers and admins can create lessons"), w).
Proof.
  intros Hfresh; cbv zeta. unfold create_lesson.
  destruct (is_staff current_user); cbn [negb]; [|reflexivity].
  eexists; split; [reflexivity|]. split; [reflexivity|]. split; [|split].
  - simpl. rewrite (find_one_app_None _ _ _ (proj2 (find_one_None _ _) Hfresh)).
    unfold find_one; rewrite filter_cons, decide_True by done. done.
  - intros [Hl Ha]; split; [|exact Ha]. simpl.
    apply Forall_app; split; [exact Hl|]. by repeat constructor.
  - intros found Hf Hin.
    match type of Hf with
    | (get_lessons _ _ ?w0).1 = _ =>
        destruct (get_lessons_found_listed difficulty reader w0)
          as (found' & E & Hall)
    end.
    rewrite E in Hf; injection Hf as <-. rewrite Forall_forall in Hall.
    destruct (Hall _ Hin) as [_ [Hpub _]]. done.
Qed.

Lemma created_lesson_is_unlisted_witness :
  ∃ lesson,
    (create_lesson (mkLessonCreate "Channels" ADVANCED)
                   (mkUser "t1" "tea@example.org" TEACHER true 0 1 0) "L3"
                   (mkWorld db_first [])).1 = Ok lesson ∧
    l_points_reward lesson = 10 ∧
    ∀ found,
      (get_lessons None alice
         (serve [CompleteLesson "L3" alice 1000]
            (create_lesson (mkLessonCreate "Channels" ADVANCED)
               (mkUser "t1" "tea@example.org" TEACHER true 0 1 0) "L3"
               (mkWorld db_first [])).2)).1 = Ok found →
      lesson ∉ found.
Proof.
  destruct (created_lesson_is_unlisted
              (mkLessonCreate "Channels" ADVANCED)
              (mkUser "t1" "tea@example.org" TEACHER true 0 1 0) "L3"
              (mkWorld db_first []) [CompleteLesson "L3" alice 1000]
              None alice)
    as (lesson & Hl & Hr & _ & _ & Hun).
  - apply (bool_decide_unpack _); vm_compute; exact I.
  - exists lesson; split; [exact Hl|]. split; [exact Hr|exact Hun].
Defined.


(** ** Reading achievements ([get_user_achievements]) *)

(** X20: who may read a learner's achievements, and what they see.  A
    user reads their own achievements, a teacher or admin anybody's, and
    any other call is refused with the 403; nothing is changed.  The
    records returned all belong to the learner asked for, and they are the
    first 100 the learner holds: the same records that
    [check_achievements] takes as held, so no available achievement of
    the learner is among them. *)
Theorem get_user_achievements_shows_held
    (user_id : string) (current_user : User) (w : World) :
  let result := get_user_achievements user_id current_user w in
  if bool_decide (u_id current_user = user_id) || is_staff current_user then
    ∃ found,
      result = (Ok found, w) ∧
      Forall (λ ua, ua_user_id ua = user_id) found ∧
      ua_achievement_id <$> found = take 100 (earned_ids user_id (db w)) ∧
      Forall (λ a, a_id a ∉ ua_achievement_id <$> found)
             (available_achievements user_id (db w))
  else
    result = (Raise (HTTPException 403 "Insufficient permissions"), w).
Proof.
  unfold get_user_achievements; cbv zeta.
  destruct (decide (u_id current_user = user_id)) as [Hid|Hid].
  - rewrite (bool_decide_eq_true_2 _ Hid); cbn [orb].
    rewrite bool_decide_eq_false_2 by (intros Hn; by apply Hn).
    cbn [andb]. unfold read. eexists; split; [reflexivity|]. simpl.
    split; [|split].
    + apply Forall_forall; intros ua Hua.
      by apply find_to_list_elem_of in Hua as [_ Hua].
    + unfold find_to_list, earned_ids. by rewrite fmap_take.
    + apply Forall_forall; intros a Ha.
      by apply find_to_list_elem_of in Ha as [_ [_ Ha]].
  - rewrite (bool_decide_eq_false_2 _ Hid); cbn [orb].
    rewrite bool_decide_eq_true_2 by done. cbn [andb].
    destruct (is_staff current_user); cbn [negb]; [|done].
    unfold read. eexists; split; [reflexivity|]. simpl.
    split; [|split].
    + apply Forall_forall; intros ua Hua.
      by apply find_to_list_elem_of in Hua as [_ Hua].
    + unfold find_to_list, earned_ids. by rewrite fmap_take.
    + apply Forall_forall; intros a Ha.
      by apply find_to_list_elem_of in Ha as [_ [_ Ha]].
Qed.

(** ** Authentication ([get_current_user_with_db]) *)

(** X21: who the handlers are called for.  When the dependency yields
    a user, the token decoded to a payload whose [sub] is the id of that
    user, the user is a stored document, active, the first one under that
    id, and so has a balance, which is the user's points; the database is
    not touched. *)
Theorem current_user_is_stored_and_active
    (decode_token : string → outcome (gmap string string)) (token : string)
    (w : World) (user : User) :
  (get_current_user_with_db decode_token token w).1 = Ok user →
  (get_current_user_with_db decode_token token w).2 = w ∧
  (∃ payload, decode_token token = Ok payload ∧
              payload !! "sub" = Some (u_id user)) ∧
  user ∈ users (db w) ∧
  u_is_active user = true ∧
  balance (u_id user) (db w) = Some (u_points user).
Proof.
  unfold get_current_user_with_db.
  destruct (decode_token token) as [payload|e]; [|done].
  destruct (payload !! "sub") as [user_id|] eqn:Hsub; [|done].
  unfold bind, read; simpl.
  destruct (find_one _ (users (db w))) as [u|] eqn:Hfind; [|done].
  destruct (u_is_active u) eqn:Hact; simpl; [|done].
  intros [= ->]. pose proof (find_one_Some _ _ _ Hfind) as [Hin Hid].
  simpl in Hid; subst user_id.
  repeat split; [eauto|done|done|]. unfold balance. by rewrite Hfind.
Qed.

Lemma current_user_is_stored_and_active_witness :
  let decode_token (token : string) : outcome (gmap string string) :=
    if bool_decide (token = "token-of-alice")
    then Ok {[ "sub" := "u1"; "role" := "student" ]}
    else Raise (HTTPException 401 "Invalid token") in
  alice ∈ users db_first ∧ balance "u1" db_first = Some 0.
Proof.
  intros decode_token.
  destruct (current_user_is_stored_and_active decode_token "token-of-alice"
              (mkWorld db_first []) alice) as (_ & _ & Hin & _ & Hb).
  - reflexivity.
  - split; [exact Hin|exact Hb].
Defined.



(** ** Classes ([create_class], [get_classes], [join_class]) *)

Lemma find_one_update_one_same {A} (P : A → Prop) `{!∀ x, Decision (P x)}
    (f : A → A) c :
  (∀ x, P x → P (f x)) →
  find_one P (update_one P f c) = f <$> find_one P c.
Proof.
  intros Hf; unfold find_one; induction c as [|x c IH]; simpl; [done|].
  destruct (decide (P x)) as [Hx|Hx].
  - rewrite !filter_cons, !decide_True by auto. done.
  - rewrite !filter_cons, !decide_False by done. exact IH.
Qed.

Lemma fmap_update_one {A B} (P : A → Prop) `{!∀ x, Decision (P x)}
    (f : A → A) (g : A → B) c :
  (∀ x, g (f x) = g x) → g <$> update_one P f c = g <$> c.
Proof.
  intros Hg; induction c as [|x c IH]; cbn [update_one]; [done|].
  destruct (decide (P x)); rewrite !fmap_cons; [by rewrite Hg|by rewrite IH].
Qed.

Lemma NoDup_fmap_elem_of_eq {A B} (g : A → B) (l : list A) x y :
  NoDup (g <$> l) → x ∈ l → y ∈ l → g x = g y → x = y.
Proof.
  induction l as [|z l IH]; simpl; [by intros _ ?%not_elem_of_nil|].
  rewrite NoDup_cons. intros [Hz Hnd].
  intros [->|Hx]%elem_of_cons [->|Hy]%elem_of_cons Hg; [done| | |by apply IH].
  - destruct Hz. rewrite Hg. apply list_elem_of_fmap; eauto.
  - destruct Hz. rewrite <-Hg. apply list_elem_of_fmap; eauto.
Qed.

Lemma find_one_by_id classes class_id class_code c :
  NoDup (c_id <$> classes) →
  find_one (λ x, c_id x = class_id ∧ c_class_code x = class_code) classes
  = Some c →
  find_one (λ x, c_id x = class_id) classes = Some c.
Proof.
  intros Hnd Hc. apply find_one_Some in Hc as [Hin [Hid Hcode]].
  destruct (find_one (λ x, c_id x = class_id) classes) as [c'|] eqn:E.
  - apply find_one_Some in E as [Hin' Hid']. f_equal.
    apply (NoDup_fmap_elem_of_eq c_id classes); congruence.
  - apply (proj1 (find_one_None _ _)) in E. destruct E.
    apply Exists_exists; eauto.
Qed.

Lemma join_class_cases class_id class_code current_user classes :
  (∃ e, join_class class_id class_code current_user classes
        = (Raise e, classes)) ∨
  (u_role current_user = STUDENT ∧
   ∃ c, find_one (λ x, c_id x = class_id ∧ c_class_code x = class_code)
                 classes = Some c ∧
        (u_id current_user ∉ c_students c) ∧
        join_class class_id class_code current_user classes
        = (Ok (mkAPIResponse true "Successfully joined class"),
           update_one (λ x, c_id x = class_id)
                      (push_student (u_id current_user)) classes)).
Proof.
  unfold join_class.
  destruct (decide (u_role current_user = STUDENT)) as [Hr|Hr].
  - rewrite (bool_decide_eq_true_2 _ Hr); cbn [negb].
    destruct (find_one _ classes) as [c|]; [|left; eauto].
    destruct (decide (u_id current_user ∈ c_students c)) as [Hin|Hin].
    + rewrite (bool_decide_eq_true_2 _ Hin). left; eauto.
    + rewrite (bool_decide_eq_false_2 _ Hin). right; eauto.
  - rewrite (bool_decide_eq_false_2 _ Hr); cbn [negb]. left; eauto.
Qed.

(** X23: joining a class.  With distinct class ids, a call that
    succeeds was made by a student who gave the id and the code of one
    stored class and was not among its students; afterwards that class,
    and no other, has the student appended to its students.  A call that
    is refused changes nothing. *)
Theorem join_class_enrolls
    (class_id class_code : string) (current_user : User)
    (classes : list Class) :
  NoDup (c_id <$> classes) →
  let result := join_class class_id class_code current_user classes in
  match result.1 with
  | Ok _ =>
      u_role current_user = STUDENT ∧
      ∃ c, c ∈ classes ∧ c_id c = class_id ∧ c_class_code c = class_code ∧
           (u_id current_user ∉ c_students c) ∧
           find_one (λ x, c_id x = class_id) result.2
           = Some (push_student (u_id current_user) c) ∧
           ∀ other, other ≠ class_id →
                    find_one (λ x, c_id x = other) result.2
                    = find_one (λ x, c_id x = other) classes
  | Raise _ => result.2 = classes
  end.
Proof.
  intros Hnd; cbv zeta.
  destruct (join_class_cases class_id class_code current_user classes)
    as [[e ->]|(Hr & c & Hc & Hnot & ->)]; [done|]. cbn [fst snd].
  split; [done|]. exists c.
  pose proof (find_one_Some _ _ _ Hc) as [Hin [Hid Hcode]].
  repeat split; try done.
  - rewrite find_one_update_one_same by done.
    by rewrite (find_one_by_id _ _ _ _ Hnd Hc).
  - intros other Hother. unfold find_one.
    clear -Hother. induction classes as [|x l IH]; simpl; [done|].
    destruct (decide (c_id x = class_id)) as [Hx|Hx].
    + rewrite !filter_cons, !decide_False by (simpl; congruence). done.
    + rewrite !filter_cons. destruct (decide _); simpl; [done|exact IH].
Qed.

Lemma join_class_enrolls_witness :
  u_role alice = STUDENT ∧
  ∃ c, c ∈ [class_1] ∧ c_id c = "c1" ∧ c_class_code c = "ABCD1234" ∧
       (u_id alice ∉ c_students c) ∧
       find_one (λ x, c_id x = "c1")
                (join_class "c1" "ABCD1234" alice [class_1]).2
       = Some (push_student (u_id alice) c) ∧
       ∀ other, other ≠ "c1" →
                find_one (λ x, c_id x = other)
                         (join_class "c1" "ABCD1234" alice [class_1]).2
                = find_one (λ x, c_id x = other) [class_1].
Proof.
  apply (join_class_enrolls "c1" "ABCD1234" alice [class_1]).
  apply (bool_decide_unpack _); vm_compute; exact I.
Defined.

(** X24: a student is enrolled in a class at most once.  With distinct
    class ids, a join that follows a successful join of the same student
    to the same class is refused with the 400 and changes nothing, and if
    no class lists a student twice, none does after a join. *)
Theorem join_class_enrolls_once
    (class_id class_code : string) (current_user : User)
    (classes : list Class) :
  NoDup (c_id <$> classes) →
  Forall (λ c, NoDup (c_students c)) classes →
  let first := join_class class_id class_code current_user classes in
  Forall (λ c, NoDup (c_students c)) first.2 ∧
  match first.1 with
  | Ok _ =>
      join_class class_id class_code current_user first.2
      = (Raise (HTTPException 400 "Already enrolled in this class"), first.2)
  | Raise _ => True
  end.
Proof.
  intros Hnd Hst; cbv zeta.
  destruct (join_class_cases class_id class_code current_user classes)
    as [[e ->]|(Hr & c & Hc & Hnot & ->)]; [done|]. cbn [fst snd].
  pose proof (find_one_by_id _ _ _ _ Hnd Hc) as Hc1.
  pose proof (find_one_Some _ _ _ Hc) as [Hin [Hid Hcode]].
  split.
  - clear -Hst Hc1 Hnot. revert Hc1.
    unfold find_one. induction Hst as [|x l Hx Hl IH]; simpl; [done|].
    rewrite filter_cons.
    destruct (decide (c_id x = class_id)); simpl.
    + intros [= ->]. constructor; [|done]. simpl.
      apply NoDup_app; repeat split; [done| |apply NoDup_singleton].
      intros y Hy [->|[]%not_elem_of_nil]%elem_of_cons. done.
    + intros Hrest. constructor; [done|by apply IH].
  - assert (find_one (λ x, c_id x = class_id ∧ c_class_code x = class_code)
              (update_one (λ x, c_id x = class_id)
                          (push_student (u_id current_user)) classes)
            = Some (push_student (u_id current_user) c)) as Hfind.
    { clear -Hc1 Hcode Hid. revert Hc1. unfold find_one.
      induction classes as [|x l IH]; simpl; [done|].
      rewrite filter_cons.
      destruct (decide (c_id x = class_id)) as [Hx|Hx]; simpl.
      - intros [= ->]. rewrite filter_cons, decide_True by done. done.
      - intros Hrest. rewrite filter_cons, decide_False by tauto.
        by apply IH. }
    unfold join_class.
    rewrite (bool_decide_eq_true_2 _ Hr); cbn [negb]. rewrite Hfind.
    rewrite bool_decide_eq_true_2; [done|].
    simpl. apply elem_of_app; right; left.
Qed.


Lemma join_class_enrolls_once_witness :
  Forall (λ c, NoDup (c_students c))
         (join_class "c1" "ABCD1234" alice [class_1]).2 ∧
  join_class "c1" "ABCD1234" alice
             (join_class "c1" "ABCD1234" alice [class_1]).2
  = (Raise (HTTPException 400 "Already enrolled in this class"),
     (join_class "c1" "ABCD1234" alice [class_1]).2).
Proof.
  apply (join_class_enrolls_once "c1" "ABCD1234" alice [class_1]).
  - apply (bool_decide_unpack _); vm_compute; exact I.
  - repeat constructor.
Defined.



(** X26: creating a class and joining it.  A teacher or admin who
    creates a class under an id and a code that no stored class has gets
    back the stored class, taught by the creator and without students; a
    student then joins it with its id and code, and is refused with the
    404 under its id and any other code.  A student cannot create a
    class. *)
Theorem create_class_then_join
    (class_data : ClassCreate) (current_user : User)
    (uuid class_code : string) (now : datetime) (classes : list Class)
    (student : User) (other_code : string) :
  ¬ Exists (λ c, c_id c = uuid) classes →
  ¬ Exists (λ c, c_class_code c = class_code) classes →
  u_role student = STUDENT →
  other_code ≠ class_code →
  let created := create_class class_data current_user uuid class_code now
                              classes in
  if is_staff current_user then
    ∃ class,
      created = (Ok class, classes ++ [class]) ∧
      c_id class = uuid ∧ c_class_code class = class_code ∧
      c_teacher_id class = u_id current_user ∧ c_students class = [] ∧
      join_class uuid class_code student created.2
      = (Ok (mkAPIResponse true "Successfully joined class"),
         classes ++ [push_student (u_id student) class]) ∧
      join_class uuid other_code student created.2
      = (Raise (HTTPException 404 "Invalid class code"), created.2)
  else
    created
    = (Raise (HTTPException 403
                "Only teachers and admins can create classes"), classes).
Proof.
  intros Hid Hcode Hrole Hother; cbv zeta. unfold create_class.
  destruct (is_staff current_user); cbn [negb]; [|done].
  unfold insert_one_class. rewrite decide_False by done.
  eexists; split; [reflexivity|]. repeat split; cbn [snd].
  - unfold join_class. rewrite (bool_decide_eq_true_2 _ Hrole); cbn [negb].
    rewrite find_one_app_None; cycle 1.
    { apply find_one_None. rewrite Exists_exists.
      intros (c & Hc & Hc1 & _). apply Hid, Exists_exists; eauto. }
    unfold find_one at 1. rewrite filter_cons, decide_True by done.
    cbn [head c_students]. rewrite bool_decide_eq_false_2
      by apply not_elem_of_nil.
    f_equal. clear -Hid. induction classes as [|x l IH]; simpl.
    + by rewrite decide_True.
    + rewrite decide_False, IH; [done| |].
      * intros Hex; apply Hid; by right.
      * intros Hx; apply Hid; by left.
  - unfold join_class. rewrite (bool_decide_eq_true_2 _ Hrole); cbn [negb].
    rewrite (proj2 (find_one_None _ _)); [done|].
    rewrite Exists_app, Exists_cons, Exists_nil.
    intros [Hex|[[_ Hc]|[]]]; simpl in *; [|congruence].
    apply Hid. apply Exists_exists in Hex as (c & Hc & Hc1 & _).
    apply Exists_exists; eauto.
Qed.

Lemma create_class_then_join_witness :
  ∃ class,
    create_class (mkClassCreate "Go 102" None None) teacher_1 "c2" "EF567890"
                 1000 [class_1]
    = (Ok class, [class_1; class]) ∧
    join_class "c2" "EF567890" alice [class_1; class]
    = (Ok (mkAPIResponse true "Successfully joined class"),
       [class_1; push_student "u1" class]) ∧
    join_class "c2" "ABCD1234" alice [class_1; class]
    = (Raise (HTTPException 404 "Invalid class code"), [class_1; class]).
Proof.
  destruct (create_class_then_join
              (mkClassCreate "Go 102" None None) teacher_1 "c2" "EF567890"
              1000 [class_1] alice "ABCD1234")
    as (class & Hc & _ & _ & _ & _ & Hj & Hn).
  - apply (bool_decide_unpack _); vm_compute; exact I.
  - apply (bool_decide_unpack _); vm_compute; exact I.
  - reflexivity.
  - discriminate.
  - rewrite Hc in Hj, Hn. exists class; split; [exact Hc|].
    split; [exact Hj|exact Hn].
Defined.

(** X27: class codes stay unique.  With distinct class codes, creating
    a class under a code that a stored class has is refused by the unique
    index with [DuplicateKeyError] and changes nothing, and the codes are
    distinct after any [create_class] and any [join_class]. *)
Theorem class_codes_stay_unique
    (class_data : ClassCreate) (creator : User) (uuid class_code : string)
    (now : datetime) (class_id code : string) (joiner : User)
    (classes : list Class) :
  NoDup (c_class_code <$> classes) →
  NoDup (c_class_code <$>
           (create_class class_data creator uuid class_code now classes).2) ∧
  NoDup (c_class_code <$> (join_class class_id code joiner classes).2) ∧
  (if decide (Exists (λ c, c_class_code c = class_code) classes)
   then (create_class class_data creator uuid class_code now classes).1
        = (if is_staff creator then Raise DuplicateKeyError
           else Raise (HTTPException 403
                         "Only teachers and admins can create classes")) ∧
        (create_class class_data creator uuid class_code now classes).2
        = classes
   else True).
Proof.
  intros Hnd. split; [|split].
  - unfold create_class.
    destruct (is_staff creator); cbn [negb]; [|done].
    unfold insert_one_class. destruct (decide _) as [Hex|Hex]; [done|].
    cbn [snd]. rewrite fmap_app. apply NoDup_app; repeat split; [done| |].
    + intros x Hx [->|[]%not_elem_of_nil]%elem_of_cons. apply Hex.
      apply list_elem_of_fmap in Hx as (c & Hc & Hin).
      apply Exists_exists; eauto.
    + apply NoDup_singleton.
  - destruct (join_class_cases class_id code joiner classes)
      as [[e ->]|(_ & _ & _ & _ & ->)]; [done|]. cbn [snd].
    by rewrite fmap_update_one.
  - destruct (decide _) as [Hex|Hex]; [|done].
    unfold create_class. destruct (is_staff creator); cbn [negb]; [|done].
    unfold insert_one_class. by rewrite decide_True.
Qed.

Lemma class_codes_stay_unique_witness :
  (create_class (mkClassCreate "Go 102" None None) teacher_1 "c2" "ABCD1234"
                1000 [class_1]).1 = Raise DuplicateKeyError ∧
  (create_class (mkClassCreate "Go 102" None None) teacher_1 "c2" "ABCD1234"
                1000 [class_1]).2 = [class_1].
Proof.
  destruct (class_codes_stay_unique
              (mkClassCreate "Go 102" None None) teacher_1 "c2" "ABCD1234"
              1000 "c1" "ABCD1234" alice [class_1]) as (_ & _ & H).
  - apply (bool_decide_unpack _); vm_compute; exact I.
  - exact H.
Defined.
